(** * bytebot python-sidecar: the security core

    A shallow embedding of [packages/python-sidecar/src/security]:
    - [owasp_validator.py]  the pattern-table scanner ([OWASPValidator]),
    - [isolation.py]        the project boundary guard ([ProjectIsolation]),
    - [secure_executor.py]  the restricted executor ([SecurePythonExecutor]).

    Python text is modelled as [string], read as code points below 128,
    the ones the tables of the source are written in (on larger code
    points [re] knows further word characters, white space and case
    pairs).  What the code calls of the standard library ([re], [pathlib],
    [os], [exec]) is modelled before the module that uses it, on a POSIX
    system and by its documented behaviour, as CPython 3.10 to 3.12
    implements it.  The structlog calls change no result and are left
    out; where the argument of one can raise ([func.__name__]), that is
    kept. *)

From Stdlib Require Import ZArith Ascii String.
From stdpp Require Import base decidable option list strings pretty gmap.

#[local] Set Warnings "-clear-no-such-hyp".

Local Open Scope string_scope.
Local Open Scope list_scope.

(* ===================================================================== *)
(** * Python text                                                         *)
(* ===================================================================== *)

Module PyStr.

(** The double quote character, which Rocq string literals cannot hold. *)
Definition dq : ascii := "034"%char.
Definition nul : ascii := "000"%char.
Definition newline : ascii := "010"%char.

Definition chars (s : string) : list ascii := list_ascii_of_string s.
Definition text (l : list ascii) : string := string_of_list_ascii l.

(** [s.startswith(p)] *)
Fixpoint startswith (p s : string) : bool :=
  match p, s with
  | EmptyString, _ => true
  | String a p', String b s' => if decide (a = b) then startswith p' s' else false
  | String _ _, EmptyString => false
  end.

(** [p in s] on strings: substring search. *)
Fixpoint contains (p s : string) : bool :=
  if startswith p s then true
  else match s with
       | EmptyString => false
       | String _ s' => contains p s'
       end.

(** [sep.join(parts)] *)
Fixpoint join (sep : string) (parts : list string) : string :=
  match parts with
  | [] => ""
  | [x] => x
  | x :: rest => x +:+ sep +:+ join sep rest
  end.

(** [s.split(c)] for a one-character separator: always at least one piece. *)
Fixpoint split (c : ascii) (s : string) : list string :=
  match s with
  | EmptyString => [""]
  | String a s' =>
      if decide (a = c) then "" :: split c s'
      else match split c s' with
           | [] => [String a ""]
           | w :: ws => String a w :: ws
           end
  end.

(** [s.count("\n")] *)
Fixpoint count_newlines (l : list ascii) : nat :=
  match l with
  | [] => 0
  | a :: l' => (if decide (a = newline) then 1 else 0) + count_newlines l'
  end.

(** [f"{n:04d}"]: decimal, padded with zeros to four digits. *)
Definition fmt_04d (n : nat) : string :=
  let d := pretty n in
  text (replicate (4 - String.length d) "0"%char) +:+ d.

End PyStr.

(* ===================================================================== *)
(** * The fragment of [re] the pattern tables use                         *)
(* ===================================================================== *)

Module Re.
Import PyStr.

Inductive regex : Type :=
  | Eps
  | Chr (c : ascii)              (* a literal character *)
  | Dot                          (* [.]  any character but a newline *)
  | Space                        (* [\s] *)
  | Word                         (* [\w] *)
  | OneOf (cs : list ascii)      (* a character set *)
  | WordB                        (* [\b] *)
  | Seq (r1 r2 : regex)
  | Alt (r1 r2 : regex)          (* [r1|r2], left branch first *)
  | Star (r : regex).            (* greedy [r*] *)

(** A compiled pattern: the [(?i)] flag and the body. *)
Record pattern : Type := { icase : bool; body : regex }.

Definition Plus (r : regex) : regex := Seq r (Star r).
Definition Opt (r : regex) : regex := Alt r Eps.
Definition seq (rs : list regex) : regex := foldr Seq Eps rs.
Definition lit (s : string) : regex := seq (Chr <$> chars s).

Definition code (a : ascii) : nat := nat_of_ascii a.
Definition between (lo hi : nat) (a : ascii) : bool :=
  (lo <=? code a)%nat && (code a <=? hi)%nat.
Definition is_upper : ascii -> bool := between 65 90.
Definition is_lower : ascii -> bool := between 97 122.
Definition is_digit : ascii -> bool := between 48 57.
Definition lower (a : ascii) : ascii :=
  if is_upper a then ascii_of_nat (code a + 32) else a.
Definition is_word (a : ascii) : bool :=
  is_upper a || is_lower a || is_digit a || bool_decide (a = "_"%char).
(** White space of [str] patterns below 128: TAB..CR, FS..US and space. *)
Definition is_space (a : ascii) : bool :=
  between 9 13 a || between 28 31 a || bool_decide (a = " "%char).

Definition chr_eq (ic : bool) (c a : ascii) : bool :=
  if ic then bool_decide (lower c = lower a) else bool_decide (c = a).

Definition word_before (prev : option ascii) : bool :=
  match prev with Some a => is_word a | None => false end.
Definition word_after (s : list ascii) : bool :=
  match s with a :: _ => is_word a | [] => false end.

(** A position in the subject: the character before it and the rest. *)
Definition cursor : Type := option ascii * list ascii.

(** One character step with a test. *)
Definition eat (test : ascii -> bool) (s : list ascii)
    (k : option ascii -> list ascii -> option cursor) : option cursor :=
  match s with
  | a :: s' => if test a then k (Some a) s' else None
  | [] => None
  end.

(** The backtracking matcher, in continuation-passing style: the first
    success in the engine's order (greedy repetition, left alternative
    first) is the match. *)
Fixpoint rmatch (ic : bool) (r : regex) (prev : option ascii) (s : list ascii)
    (k : option ascii -> list ascii -> option cursor) {struct r} : option cursor :=
  match r with
  | Eps => k prev s
  | Chr c => eat (chr_eq ic c) s k
  | Dot => eat (fun a => negb (bool_decide (a = newline))) s k
  | Space => eat is_space s k
  | Word => eat is_word s k
  | OneOf cs => eat (fun a => existsb (fun c => chr_eq ic c a) cs) s k
  | WordB => if xorb (word_before prev) (word_after s) then k prev s else None
  | Seq r1 r2 => rmatch ic r1 prev s (fun p' s' => rmatch ic r2 p' s' k)
  | Alt r1 r2 =>
      match rmatch ic r1 prev s k with
      | Some e => Some e
      | None => rmatch ic r2 prev s k
      end
  | Star r1 =>
      (fix loop (n : nat) (prev : option ascii) (s : list ascii) : option cursor :=
         match
           rmatch ic r1 prev s
             (fun p' s' =>
                match n with
                | O => None
                | S n' => if (length s' <? length s)%nat then loop n' p' s' else None
                end)
         with
         | Some e => Some e
         | None => k prev s
         end) (length s) prev s
  end.

(** [pattern.match] at one position. *)
Definition match_at (p : pattern) (prev : option ascii) (s : list ascii) : option cursor :=
  rmatch (icase p) (body p) prev s (fun p' s' => Some (p', s')).

(** [re.finditer]: the start offsets of the successive non-overlapping
    matches, scanning left to right.  After a match the scan goes on at its
    end; an empty match moves on by one character. *)
Fixpoint finditer_from (fuel : nat) (p : pattern) (prev : option ascii)
    (s : list ascii) (pos : nat) : list nat :=
  match fuel with
  | O => []
  | S fuel' =>
      let skip :=
        match s with
        | [] => []
        | a :: s' => finditer_from fuel' p (Some a) s' (S pos)
        end in
      match match_at p prev s with
      | None => skip
      | Some (p', s') =>
          let used := (length s - length s')%nat in
          match used with
          | O => pos :: skip
          | S _ => pos :: finditer_from fuel' p p' s' (pos + used)
          end
      end
  end.

Definition finditer (p : pattern) (subject : string) : list nat :=
  let s := chars subject in finditer_from (S (length s)) p None s 0.

End Re.

(* ===================================================================== *)
(** * owasp_validator.py                                                  *)
(* ===================================================================== *)

Module Owasp.
Import PyStr Re.

Inductive Severity : Type := critical | high | medium | low | info.

#[global] Instance Severity_eq_dec : EqDecision Severity.
Proof. solve_decision. Defined.

Record Vulnerability : Type := {
  id : string;
  category : string;
  severity : Severity;
  title : string;
  description : string;
  location : option string;
  remediation : option string;
}.

(** [compliance_score] is a float in the source.  Every value it takes is
    the integer [100 - 25 c - 15 h - 5 m] or [0], which binary64 holds
    exactly for all counts below 2^53 / 25, so it is kept as an integer. *)
Record ValidationResult : Type := {
  valid : bool;
  vulnerabilities : list Vulnerability;
  compliance_score : Z;
}.

Definition I (r : regex) : pattern := {| icase := true; body := r |}.
Definition C (r : regex) : pattern := {| icase := false; body := r |}.

(** [any] is dot-star, [ws] is backslash-s-star, [quote] is the set of the
    single and the double quote. *)
Definition any : regex := Star Dot.
Definition ws : regex := Star Space.
Definition quote : regex := OneOf ["'"%char; dq].
Definition kw (s : string) : regex := seq [WordB; lit s; WordB].

Definition SQL_PATTERNS : list (pattern * string) := [
  (I (seq [kw "SELECT"; any; kw "FROM"; any; kw "WHERE"; any; Chr "=";
           ws; Opt quote; ws; Chr "+"]), "SQL concatenation");
  (I (seq [kw "INSERT"; any; kw "INTO"; any; kw "VALUES"; any; Chr "+"]),
     "SQL INSERT concatenation");
  (I (seq [kw "UPDATE"; any; kw "SET"; any; Chr "="; any; Chr "+"]),
     "SQL UPDATE concatenation");
  (I (seq [kw "DELETE"; any; kw "FROM"; any; kw "WHERE"; any; Chr "+"]),
     "SQL DELETE concatenation");
  (I (seq [lit "execute"; ws; Chr "("; ws; quote; any; Chr "+"]),
     "Dynamic SQL execution");
  (I (seq [Chr "f"; quote; any; Chr "{"; any; Chr "}"; any; lit "SELECT"]),
     "F-string SQL query");
  (I (seq [Chr "f"; quote; any; Chr "{"; any; Chr "}"; any; lit "INSERT"]),
     "F-string SQL query");
  (I (seq [Chr "f"; quote; any; Chr "{"; any; Chr "}"; any; lit "UPDATE"]),
     "F-string SQL query");
  (I (seq [Chr "f"; quote; any; Chr "{"; any; Chr "}"; any; lit "DELETE"]),
     "F-string SQL query")
].

Definition XSS_PATTERNS : list (pattern * string) := [
  (I (seq [lit "innerHTML"; ws; Chr "="]), "Direct innerHTML assignment");
  (I (seq [lit "document.write"; ws; Chr "("]), "document.write usage");
  (I (seq [lit "eval"; ws; Chr "("]), "eval() usage");
  (C (seq [lit "<script"; any; Chr ">"; any; lit "</script>"]), "Inline script tag");
  (I (seq [lit "on"; Plus Word; ws; Chr "="; ws; quote]), "Inline event handler")
].

Definition CMD_PATTERNS : list (pattern * string) := [
  (I (seq [lit "os.system"; ws; Chr "("; any; Chr "+"]), "os.system with concatenation");
  (I (seq [lit "subprocess."; Alt (lit "run") (Alt (lit "call") (lit "Popen"));
           ws; Chr "("; any; Chr "+"]), "subprocess with concatenation");
  (I (seq [lit "exec"; ws; Chr "("; any; Chr "+"]), "exec with concatenation");
  (I (seq [lit "shell"; ws; Chr "="; ws; lit "True"]), "shell=True in subprocess");
  (I (seq [lit "os.popen"; ws; Chr "("]), "os.popen usage")
].

Definition PATH_PATTERNS : list (pattern * string) := [
  (C (lit "../"), "Parent directory traversal");
  (C (lit "..\\"), "Windows parent directory traversal");
  (I (lit "/etc/passwd"), "Access to /etc/passwd");
  (I (lit "/etc/shadow"), "Access to /etc/shadow");
  (I (lit "C:\\Windows"), "Windows system directory")
].

Definition SSRF_PATTERNS : list (pattern * string) := [
  (I (seq [lit "requests.";
           Alt (lit "get") (Alt (lit "post") (Alt (lit "put") (lit "delete")));
           ws; Chr "("; any; Chr "+"]), "HTTP request with concatenation");
  (I (seq [lit "urllib.request.urlopen"; ws; Chr "("; any; Chr "+"]),
     "urlopen with concatenation");
  (I (lit "http.client"), "http.client usage");
  (I (Alt (lit "127.0.0.1") (lit "localhost")), "Localhost access");
  (I (lit "169.254."), "AWS metadata IP")
].

(** [self.patterns]: a dict, iterated in insertion order. *)
Definition patterns : list (string * list (pattern * string)) := [
  ("A03:2021-Injection-SQL", SQL_PATTERNS);
  ("A03:2021-Injection-XSS", XSS_PATTERNS);
  ("A03:2021-Injection-CMD", CMD_PATTERNS);
  ("A01:2021-Broken Access Control", PATH_PATTERNS);
  ("A10:2021-SSRF", SSRF_PATTERNS)
].

Definition _get_severity (category : string) : Severity :=
  if contains "Injection" category then critical
  else if contains "Access Control" category then high
  else if contains "SSRF" category then high
  else medium.

Definition remediations : gmap string string :=
  <["A03:2021-Injection-SQL" :=
      "Use parameterized queries or ORM instead of string concatenation"]>
  (<["A03:2021-Injection-XSS" :=
      "Sanitize user input and use Content Security Policy"]>
  (<["A03:2021-Injection-CMD" :=
      "Avoid shell=True and use array-based subprocess calls"]>
  (<["A01:2021-Broken Access Control" :=
      "Validate and sanitize all file paths, use allowlists"]>
  (<["A10:2021-SSRF" :=
      "Validate URLs against allowlist, block internal IPs"]> ∅)))).

Definition _get_remediation (category : string) : string :=
  default "Review and fix the identified vulnerability" (remediations !! category).

(** The loop state of [validate]: the list built so far and [vuln_id]. *)
Definition scan_state : Type := list Vulnerability * nat.

(** The body of [for match in matches]. *)
Definition on_match (code : string) (category desc : string)
    (st : scan_state) (start : nat) : scan_state :=
  let vuln_id := S (snd st) in
  let line_num := S (count_newlines (take start (chars code))) in
  (fst st ++ [{| id := "OWASP-" +:+ fmt_04d vuln_id;
                 category := category;
                 severity := _get_severity category;
                 title := desc;
                 description := "Potential " +:+ desc +:+ " vulnerability detected";
                 location := Some ("Line " +:+ pretty line_num);
                 remediation := Some (_get_remediation category) |}],
   vuln_id).

(** The body of [for pattern, desc in patterns]. *)
Definition on_pattern (code : string) (category : string)
    (st : scan_state) (pd : pattern * string) : scan_state :=
  foldl (on_match code category (snd pd)) st (finditer (fst pd) code).

(** The body of [for category, patterns in self.patterns.items()]. *)
Definition on_category (code : string)
    (st : scan_state) (cp : string * list (pattern * string)) : scan_state :=
  foldl (on_pattern code (fst cp)) st (snd cp).

Definition scan (code : string) : list Vulnerability :=
  fst (foldl (on_category code) ([], 0) patterns).

(** [sum(1 for v in vulnerabilities if v.severity == sev)] *)
Definition count_severity (sev : Severity) (vs : list Vulnerability) : Z :=
  foldr (fun v acc => if decide (severity v = sev) then (1 + acc)%Z else acc) 0%Z vs.

Definition validate (code : string) : ValidationResult :=
  let vulnerabilities := scan code in
  let critical_count := count_severity critical vulnerabilities in
  let high_count := count_severity high vulnerabilities in
  let medium_count := count_severity medium vulnerabilities in
  let score := (100 - critical_count * 25 - high_count * 15 - medium_count * 5)%Z in
  let score := Z.max 0 score in
  let valid :=
    bool_decide
      (length (filter (fun v => severity v = critical \/ severity v = high)
                      vulnerabilities) = 0) in
  {| valid := valid; vulnerabilities := vulnerabilities; compliance_score := score |}.

End Owasp.

(* ===================================================================== *)
(** * Exceptions, [pathlib] and [os]                                      *)
(* ===================================================================== *)

Module Py.
Import PyStr.

(** The exception classes that occur; [Other] stands for any further
    subclass of [Exception].  [KeyboardInterrupt] and [SystemExit] derive
    from [BaseException] only, so [except Exception] lets them through. *)
Inductive ExnClass : Type :=
  | PermissionError | ValueError | RuntimeError | FileNotFoundError
  | KeyboardInterrupt | SystemExit
  | Other (name : string).

Record PyExn : Type := { exn_class : ExnClass; exn_msg : string }.

Definition is_Exception (e : PyExn) : bool :=
  match exn_class e with
  | KeyboardInterrupt | SystemExit => false
  | _ => true
  end.

Definition is_PermissionError (e : PyExn) : bool :=
  match exn_class e with PermissionError => true | _ => false end.

(** What a call does: it returns a value or raises. *)
Inductive outcome (A : Type) : Type :=
  | Returns (a : A)
  | Raises (e : PyExn).
Arguments Returns {A} a.
Arguments Raises {A} e.

(** ** Pure paths *)

(** A POSIX [Path]: whether it has a root, and its components.  (A root
    of exactly two slashes, which [pathlib] keeps apart and [realpath]
    turns into one, is read as one slash.) *)
Record Path : Type := { absolute : bool; parts : list string }.

(** [Path(s)]: split at the slashes, drop empty and [.] components. *)
Definition Path_of (s : string) : Path :=
  {| absolute := startswith "/" s;
     parts := filter (fun c => c <> "" /\ c <> ".") (split "/" s) |}.

(** [str(p)] *)
Definition Path_str (p : Path) : string :=
  if absolute p then "/" +:+ join "/" (parts p)
  else match parts p with
       | [] => "."
       | _ => join "/" (parts p)
       end.

(** [p / q] *)
Definition joinpath (p q : Path) : Path :=
  if absolute q then q
  else {| absolute := absolute p; parts := parts p ++ parts q |}.

Definition is_absolute (p : Path) : bool := absolute p.

(** [p.is_relative_to(other)]: same anchor, and the components of [other]
    lead the components of [p]. *)
Definition is_relative_to (p other : Path) : bool :=
  bool_decide (absolute p = absolute other) &&
  bool_decide (parts other `prefix_of` parts p).

(** [p.relative_to(other)] *)
Definition relative_to (p other : Path) : outcome Path :=
  if is_relative_to p other
  then Returns {| absolute := false; parts := drop (length (parts other)) (parts p) |}
  else Raises {| exn_class := ValueError;
                 exn_msg := Path_str p +:+ " is not in the subpath of " +:+ Path_str other |}.

(** ** The file system and the process *)

(** Directories and regular files are named by their canonical absolute
    paths (component lists, [[]] is the root directory); [links] maps the
    path of each symbolic link to its stored target.  [cwd] is the working
    directory of the process. *)
Record World : Type := {
  cwd : list string;
  links : gmap (list string) string;
  dirs : gset (list string);
  files : gset (list string);
}.

Definition set_cwd (d : list string) (w : World) : World :=
  {| cwd := d; links := links w; dirs := dirs w; files := files w |}.

Definition has_nul (name : string) : bool :=
  existsb (fun a => bool_decide (a = nul)) (chars name).

(** [seen] of [posixpath.realpath]: the links met so far, with their
    resolved path once it is known. *)
Abbreviation seen_map := (gmap (list string) (option (list string))).

(** How a walk ends.  [OutOfFuel] is how the model stops a recursion it
    cannot follow; [realpath] never ends so. *)
Inductive walk : Type :=
  | Done (path : list string) (seen : seen_map)
  | Loop (unresolved : list string)   (* a link met again while being resolved *)
  | BadName                           (* [lstat] refuses an embedded null byte *)
  | OutOfFuel.

(** [posixpath._joinrealpath] in non-strict mode, on component lists.
    [path] is the resolved part, [rest] the names still to walk.  The
    library ignores every [lstat] error but the null byte, so only the link
    table matters.  Its recursive call, on the target of a link, is the one
    that uses up [fuel]. *)
Fixpoint joinrealpath (fuel : nat) (lk : gmap (list string) string)
    : list string -> list string -> seen_map -> walk :=
  fix go (path rest : list string) (seen : seen_map) {struct rest} : walk :=
    match rest with
    | [] => Done path seen
    | name :: rest' =>
        if decide (name = "" \/ name = ".") then go path rest' seen
        else if decide (name = "..") then go (removelast path) rest' seen
        else if has_nul name then BadName
        else
          let newpath := path ++ [name] in
          match lk !! newpath with
          | None => go newpath rest' seen
          | Some target =>
              match seen !! newpath with
              | Some (Some p) => go p rest' seen
              | Some None => Loop (newpath ++ rest')
              | None =>
                  match fuel with
                  | O => OutOfFuel
                  | S fuel' =>
                      match
                        joinrealpath fuel' lk
                          (if startswith "/" target then [] else path)
                          (split "/" target) (<[newpath := None]> seen)
                      with
                      | Done p seen' => go p rest' (<[newpath := Some p]> seen')
                      | Loop u => Loop (u ++ rest')
                      | BadName => BadName
                      | OutOfFuel => OutOfFuel
                      end
                  end
              end
          end
    end.

(** [os.path.realpath(p)]: the path is taken as text and split at the
    slashes; relative paths start from the working directory.  Each nested
    call marks one more link as seen, so the number of links bounds the
    nesting. *)
Definition realpath (w : World) (p : Path) : walk :=
  joinrealpath (size (links w)) (links w)
    (if absolute p then [] else cwd w) (split "/" (Path_str p)) ∅.

Definition null_byte : PyExn :=
  {| exn_class := ValueError; exn_msg := "embedded null byte" |}.

Definition no_such_directory : PyExn :=
  {| exn_class := FileNotFoundError; exn_msg := "[Errno 2] No such file or directory" |}.

(** [p.resolve()], non-strict.  [realpath] ends by making its result
    absolute, which for a relative path asks for the working directory.
    On a symlink loop [resolve] raises [RuntimeError], as its documentation
    says, unless a name not yet resolved has a null byte, which the system
    calls refuse first.  (When a loop runs through a name that does not
    exist, CPython 3.10 to 3.12 hand back a path that is not resolved
    instead of raising; the model keeps to the documented behaviour.) *)
Definition resolve (w : World) (p : Path) : outcome Path :=
  let no_cwd := negb (absolute p) && negb (bool_decide (cwd w ∈ dirs w)) in
  match realpath w p with
  | Done q _ =>
      if no_cwd then Raises no_such_directory
      else Returns {| absolute := true; parts := q |}
  | Loop u =>
      if no_cwd then Raises no_such_directory
      else if existsb has_nul u then Raises null_byte
      else Raises {| exn_class := RuntimeError;
                     exn_msg := "Symlink loop from '"
                                +:+ Path_str {| absolute := true; parts := u |} +:+ "'" |}
  | BadName => Raises null_byte
  | OutOfFuel => Raises {| exn_class := RuntimeError; exn_msg := "recursion" |}
  end.

(** [p.exists()] *)
Definition exists_ (w : World) (p : Path) : bool :=
  match realpath w p with
  | Done q _ => bool_decide (q ∈ dirs w) || bool_decide (q ∈ files w)
  | _ => false
  end.

(** [os.getcwd()], read as a path; it fails once the directory is gone. *)
Definition os_getcwd (w : World) : outcome Path :=
  if decide (cwd w ∈ dirs w) then Returns {| absolute := true; parts := cwd w |}
  else Raises no_such_directory.

(** [os.chdir(p)]: the new working directory is the directory [p] leads
    to, under its canonical name.  (The code calls it with the resolved
    root and with what [os.getcwd] returned.) *)
Definition os_chdir (p : Path) (w : World) : outcome World :=
  match realpath w p with
  | Done q _ =>
      if decide (q ∈ dirs w) then Returns (set_cwd q w)
      else Raises {| exn_class := FileNotFoundError;
                     exn_msg := "[Errno 2] No such file or directory: '"
                                +:+ Path_str p +:+ "'" |}
  | Loop _ => Raises {| exn_class := Other "OSError";
                        exn_msg := "[Errno 40] Too many levels of symbolic links: '"
                                   +:+ Path_str p +:+ "'" |}
  | BadName => Raises null_byte
  | OutOfFuel => Raises {| exn_class := RuntimeError; exn_msg := "recursion" |}
  end.

End Py.

(* ===================================================================== *)
(** * isolation.py                                                        *)
(* ===================================================================== *)

Module Isolation.
Import PyStr Py.

Record ProjectIsolation : Type := {
  project_root : Path;
  enable_audit : bool;
}.

(** [ProjectIsolation.__init__] *)
Definition __init__ (project_root : string) (enable_audit : bool) (w : World)
    : outcome ProjectIsolation :=
  match resolve w (Path_of project_root) with
  | Raises e => Raises e
  | Returns root =>
      if negb (exists_ w root)
      then Raises {| exn_class := ValueError;
                     exn_msg := "Project root does not exist: " +:+ project_root |}
      else Returns {| project_root := root; enable_audit := enable_audit |}
  end.

(** [validate_path].  Both handlers re-raise, so an exception of [resolve]
    leaves the method as it is. *)
Definition validate_path (self : ProjectIsolation) (path : string) (w : World)
    : outcome Path :=
  let resolved :=
    if is_absolute (Path_of path) then resolve w (Path_of path)
    else resolve w (joinpath (project_root self) (Path_of path)) in
  match resolved with
  | Raises e => Raises e
  | Returns target =>
      if negb (is_relative_to target (project_root self))
      then Raises {| exn_class := PermissionError;
                     exn_msg := "Path traversal detected: " +:+ path |}
      else Returns target
  end.

(** A callable handed to [sandbox_exec]: what calling it does to the
    process state and to [H], the part of the Python heap it works on, and
    its [__name__] if it has one (a [functools.partial] has none). *)
Record Callable (H A : Type) : Type := {
  __name__ : option string;
  __call__ : World * H -> (World * H) * outcome A;
}.
Arguments __name__ {H A} _.
Arguments __call__ {H A} _ _.

(** [sandbox_exec]; the arguments of the call are part of [func].  With
    auditing on, the first log call reads
    [func.__name__] before the [try] block is entered.  The [finally] clause
    runs on every way out of the [try] block; an exception it raises itself
    replaces the pending result. *)
Definition sandbox_exec {H A : Type} (self : ProjectIsolation)
    (func : Callable H A) (st : World * H) : (World * H) * outcome A :=
  match os_getcwd (fst st) with
  | Raises e => (st, Raises e)
  | Returns old_cwd =>
      match enable_audit self, __name__ func with
      | true, None =>
          (st, Raises {| exn_class := Other "AttributeError"; exn_msg := "__name__" |})
      | _, _ =>
          let '(st1, r) :=
            match os_chdir (project_root self) (fst st) with
            | Raises e => (st, Raises e)
            | Returns w1 => __call__ func (w1, snd st)
            end in
          match os_chdir old_cwd (fst st1) with
          | Raises e => (st1, Raises e)
          | Returns w2 => ((w2, snd st1), r)
          end
      end
  end.

(** [is_safe_path] *)
Definition is_safe_path (self : ProjectIsolation) (path : string) (w : World)
    : outcome bool :=
  match validate_path self path w with
  | Returns _ => Returns true
  | Raises e => if is_PermissionError e then Returns false else Raises e
  end.

(** [get_relative_path] *)
Definition get_relative_path (self : ProjectIsolation) (path : string) (w : World)
    : outcome string :=
  match validate_path self path w with
  | Raises e => Raises e
  | Returns validated_path =>
      match relative_to validated_path (project_root self) with
      | Raises e => Raises e
      | Returns rel => Returns (Path_str rel)
      end
  end.

End Isolation.

(* ===================================================================== *)
(** * secure_executor.py                                                  *)
(* ===================================================================== *)

Module Executor.
Import PyStr Py Isolation.

Definition DEFAULT_AUTHORIZED_IMPORTS : list string := [
  "json"; "math"; "datetime"; "re"; "collections"; "itertools"; "functools";
  "typing"; "dataclasses"; "pathlib"; "os.path"; "statistics"; "random";
  "string"; "textwrap"; "unicodedata"
].

Definition BLOCKED_IMPORTS : list string := [
  "subprocess"; "os.system"; "os.popen"; "os.spawn"; "commands"; "pty";
  "fcntl"; "resource"; "ctypes"; "pickle"; "marshal"; "shelve"; "__builtins__"
].

Record SecurePythonExecutor : Type := {
  isolation : ProjectIsolation;
  authorized_imports : gset string;
}.

(** The Python values that occur.  A bound method keeps its receiver (its
    [__self__]), and the lambda of [_create_safe_globals] closes over
    [self]. *)
#[warnings="-register-all"]
Inductive PyVal : Type :=
  | VNone
  | VBool (b : bool)
  | VInt (n : Z)
  | VStr (s : string)
  | VSet (s : gset string)
  | VBuiltin (name : string)
  | VDict (items : list (string * PyVal))
  | VBoundMethod (self : SecurePythonExecutor) (name : string)
  | VLambda (self : SecurePythonExecutor) (body : string).

Record ExecutionResult : Type := {
  success : bool;
  result : PyVal;
  output : option string;
  error : option string;
}.

(** [SecurePythonExecutor.__init__] *)
Definition __init__ (project_isolation : ProjectIsolation)
    (additional_authorized_imports : option (list string)) : SecurePythonExecutor :=
  let authorized_imports : gset string := list_to_set DEFAULT_AUTHORIZED_IMPORTS in
  let authorized_imports :=
    match additional_authorized_imports with
    | Some (x :: l) => authorized_imports ∪ list_to_set (x :: l)
    | _ => authorized_imports
    end in
  {| isolation := project_isolation; authorized_imports := authorized_imports |}.

(** The four idioms looked for, for one blocked module. *)
Definition import_patterns (blocked : string) : list string := [
  "import " +:+ blocked;
  "from " +:+ blocked;
  "__import__('" +:+ blocked +:+ "'";
  "__import__(" +:+ String dq (blocked +:+ String dq "")
].

(** The inner loop of [_check_blocked_imports]: stop at the first idiom
    found in the code. *)
Fixpoint any_pattern_in (patterns : list string) (code : string) : bool :=
  match patterns with
  | [] => false
  | pattern :: rest => if contains pattern code then true else any_pattern_in rest code
  end.

Definition _check_blocked_imports (self : SecurePythonExecutor) (code : string)
    : list string :=
  foldl (fun blocked_found blocked =>
           if any_pattern_in (import_patterns blocked) code
           then blocked_found ++ [blocked] else blocked_found)
        [] BLOCKED_IMPORTS.

Definition builtin (name : string) : string * PyVal := (name, VBuiltin name).

Definition safe_builtins : list (string * PyVal) :=
  (builtin <$> [
     "abs"; "all"; "any"; "ascii"; "bin"; "bool"; "bytearray"; "bytes";
     "callable"; "chr"; "complex"; "dict"; "dir"; "divmod"; "enumerate";
     "filter"; "float"; "format"; "frozenset"; "getattr"; "hasattr"; "hash";
     "hex"; "id"; "int"; "isinstance"; "issubclass"; "iter"; "len"; "list";
     "map"; "max"; "min"; "next"; "object"; "oct"; "ord"; "pow"; "print";
     "range"; "repr"; "reversed"; "round"; "set"; "slice"; "sorted"; "str";
     "sum"; "tuple"; "type"; "zip";
     "Exception"; "ValueError"; "TypeError"; "KeyError"; "IndexError";
     "AttributeError"; "RuntimeError" ])
  ++ [ ("None", VNone); ("True", VBool true); ("False", VBool false) ].

(** [_create_safe_globals].  The two file functions are bound methods of
    the executor; what a call of them does belongs to the run of the
    interpreter. *)
Definition _create_safe_globals (self : SecurePythonExecutor) : gmap string PyVal :=
  <["__builtins__" := VDict safe_builtins]>
  (<["__name__" := VStr "__main__"]>
  (<["__doc__" := VNone]>
  (<["secure_read_file" := VBoundMethod self "_secure_read_file"]>
  (<["secure_write_file" := VBoundMethod self "_secure_write_file"]>
  (<["get_project_root" := VLambda self "str(self.isolation.project_root)"]> ∅))))).

(** [d.get(key, default)] *)
Definition dict_get (d : gmap string PyVal) (key : string) (default_ : PyVal) : PyVal :=
  default default_ (d !! key).

(** [s if s else None] *)
Definition or_None (s : string) : option string :=
  match s with EmptyString => None | _ => Some s end.

(** What one [exec(code, globals)] under the two redirections does: the
    globals as the code leaves them, the text written to the two streams,
    the exception that ended it if any, and the process state. *)
Record Run : Type := {
  ns : gmap string PyVal;
  stdout : string;
  stderr : string;
  raised : option PyExn;
  world : World;
}.

(** The two [StringIO] buffers of one [execute] call. *)
Definition Buffers : Type := string * string.

Section Execute.

(** The interpreter behind [exec]. *)
Variable py_exec : string -> gmap string PyVal -> World -> Run.

(** The closure [run_code] of [execute]. *)
Definition run_code (code : string) (safe_globals : gmap string PyVal)
    : Callable Buffers PyVal :=
  {| __name__ := Some "run_code";
     __call__ := fun st =>
       let r := py_exec code safe_globals (fst st) in
       let st' := (world r, (fst (snd st) +:+ stdout r, snd (snd st) +:+ stderr r)) in
       match raised r with
       | Some e => (st', Raises e)
       | None => (st', Returns (dict_get (ns r) "result" (dict_get (ns r) "_" VNone)))
       end |}.

(** [execute].  [timeout_ms] is only logged. *)
Definition execute (self : SecurePythonExecutor) (code : string) (timeout_ms : Z)
    (w : World) : World * outcome ExecutionResult :=
  let blocked := _check_blocked_imports self code in
  match blocked with
  | _ :: _ =>
      (w, Returns {| success := false; result := VNone; output := None;
                     error := Some ("Blocked import detected: " +:+ join ", " blocked) |})
  | [] =>
      let stdout_capture := "" in
      let stderr_capture := "" in
      let safe_globals := _create_safe_globals self in
      let '((w', (stdout_output, stderr_output)), r) :=
        sandbox_exec (isolation self) (run_code code safe_globals)
                     (w, (stdout_capture, stderr_capture)) in
      match r with
      | Returns res =>
          (w', Returns {| success := true; result := res;
                          output := or_None stdout_output;
                          error := or_None stderr_output |})
      | Raises e =>
          if is_Exception e
          then (w', Returns {| success := false; result := VNone;
                               output := or_None stdout_output;
                               error := Some (exn_msg e) |})
          else (w', Raises e)
      end
  end.

End Execute.

End Executor.

(* ===================================================================== *)
(** * The vocabulary of the specification                                 *)
(* ===================================================================== *)

Import PyStr Re Owasp Py Isolation Executor.

(** [p] occurs in [s]. *)
Definition substring (p s : string) : Prop :=
  exists pre post, s = pre +:+ p +:+ post.

(** The number of vulnerabilities of one severity. *)
Definition number_of (sev : Severity) (vs : list Vulnerability) : Z :=
  Z.of_nat (length (filter (fun v => severity v = sev) vs)).

(** The text of the SQL example; a double quote opens its literal and
    nothing closes it. *)
Definition sql_example : string :=
  "query = " +:+ String dq "SELECT * FROM users WHERE id=' + user_id".

(** [idiom] is one of the four import idioms for the module [X]. *)
Definition import_idiom (X idiom : string) : Prop :=
  idiom = "import " +:+ X \/
  idiom = "from " +:+ X \/
  idiom = "__import__('" +:+ X +:+ "'" \/
  idiom = "__import__(" +:+ String dq X +:+ String dq "".

(** The code text holds an import idiom for the blocked module [X]. *)
Definition mentions_blocked (code X : string) : Prop :=
  X ∈ BLOCKED_IMPORTS /\ exists idiom, import_idiom X idiom /\ substring idiom code.

(** The canonical form of [path] for a guard: resolved directly when it is
    absolute, joined to the project root and then resolved when it is
    relative. *)
Definition canonical_form (g : ProjectIsolation) (path : string) (w : World)
    : outcome Path :=
  if startswith "/" path then resolve w (Path_of path)
  else resolve w (joinpath (project_root g) (Path_of path)).

(** [p] is [root] itself or a descendant of it. *)
Definition inside (root p : Path) : Prop :=
  absolute p = absolute root /\ exists below, parts p = parts root ++ below.

(** A name that can stand in a canonical path. *)
Definition no_slash (name : string) : Prop := "/"%char ∉ chars name.

Definition clean (name : string) : Prop :=
  name <> "" /\ name <> "." /\ name <> ".." /\ has_nul name = false /\ no_slash name.

(** [p] is canonical under the link table [lk]: clean names, and no
    non-empty prefix of it is a symbolic link. *)
Definition canon (lk : gmap (list string) string) (p : list string) : Prop :=
  Forall clean p /\ forall q, q <> [] -> q `prefix_of` p -> lk !! q = None.

(** Every resolved path remembered in [seen] is canonical. *)
Definition seen_ok (lk : gmap (list string) string) (seen : seen_map) : Prop :=
  forall l p, seen !! l = Some (Some p) -> canon lk p.

(** The one-character path that consists of a null byte. *)
Definition null_path : string := String nul "".

(** The root of the guard is canonical in the file system of [w]. *)
Definition canonical_root (g : ProjectIsolation) (w : World) : Prop :=
  resolve w (project_root g) = Returns (project_root g).

(** The directory [d] can be entered under its own name: it exists and its
    name is canonical. *)
Definition enterable (w : World) (d : list string) : Prop :=
  os_chdir {| absolute := true; parts := d |} w = Returns (set_cwd d w).

(** The executor without what it knows about authorized imports. *)
Definition forget (self : SecurePythonExecutor) : SecurePythonExecutor :=
  {| isolation := isolation self; authorized_imports := ∅ |}.

(** A value seen without the authorized imports of the receivers in it. *)
Fixpoint blind (v : PyVal) : PyVal :=
  match v with
  | VBoundMethod self name => VBoundMethod (forget self) name
  | VLambda self body => VLambda (forget self) body
  | VDict items => VDict (map (fun kv => match kv with (k, x) => (k, blind x) end) items)
  | _ => v
  end.

(** Two sets of globals that differ at most in the authorized imports of
    the receivers behind their callables. *)
Definition same_view (globals globals' : gmap string PyVal) : Prop :=
  blind <$> globals = blind <$> globals'.

(** The run of [code] does not look at the authorized imports of a
    receiver: globals with the same view give the same run. *)
Definition receiver_blind
    (py_exec : string -> gmap string PyVal -> World -> Run) (code : string) : Prop :=
  forall globals globals' st,
    same_view globals globals' ->
    __call__ (run_code py_exec code globals) st
    = __call__ (run_code py_exec code globals') st.

(* ===================================================================== *)
(** * A file system, a guard and two programs to run the model on         *)
(* ===================================================================== *)

Module Examples.

(** [/proj] holds [src/a.py], a link [out] that leaves the project, a link
    [docs] that stays inside and a link [loop] to itself; the process is
    in [/tmp]. *)
Definition w0 : World := {|
  cwd := ["tmp"];
  links := <[["proj"; "out"] := "/etc"]>
           (<[["proj"; "docs"] := "src/../src"]>
           (<[["proj"; "loop"] := "loop"]> ∅));
  dirs := {[ []; ["proj"]; ["proj"; "src"]; ["tmp"]; ["etc"] ]};
  files := {[ ["proj"; "src"; "a.py"]; ["etc"; "passwd"] ]};
|}.

Definition proj : Path := {| absolute := true; parts := ["proj"] |}.
Definition g0 : ProjectIsolation := {| project_root := proj; enable_audit := true |}.

Definition exec0 : SecurePythonExecutor := Executor.__init__ g0 None.
Definition exec1 : SecurePythonExecutor := Executor.__init__ g0 (Some ["numpy"]).

(** A callback that removes the directory [/tmp] and returns. *)
Definition remove_tmp : Callable unit unit :=
  {| __name__ := Some "remove_tmp";
     __call__ := fun st =>
       ({| cwd := cwd (fst st); links := links (fst st);
           dirs := dirs (fst st) ∖ {[ ["tmp"] ]}; files := files (fst st) |}, tt,
        Returns tt) |}.

(** A callback that changes directory and raises. *)
Definition chdir_and_fail : Callable unit unit :=
  {| __name__ := Some "chdir_and_fail";
     __call__ := fun st =>
       (set_cwd ["etc"] (fst st), tt,
        Raises {| exn_class := Other "KeyError"; exn_msg := "'x'" |}) |}.

Definition a_py : Path := {| absolute := true; parts := ["proj"; "src"; "a.py"] |}.


Definition two_plus_two : string := "result = 2 + 2".
Definition peek : string := "result = secure_read_file.__self__.authorized_imports".

(** What the interpreter does on two programs: an assignment of a sum,
    and an assignment of an attribute reached through [__self__], the
    receiver that every bound method carries.  Any other text is turned
    down here. *)
Definition py_fragment (code : string) (globals : gmap string PyVal) (w : World) : Run :=
  let quiet (globals' : gmap string PyVal) (e : option PyExn) : Run :=
    {| ns := globals'; stdout := ""; stderr := ""; raised := e; world := w |} in
  if decide (code = two_plus_two) then quiet (<["result" := VInt 4]> globals) None
  else if decide (code = peek) then
    match globals !! "secure_read_file" with
    | Some (VBoundMethod self _) =>
        quiet (<["result" := VSet (authorized_imports self)]> globals) None
    | Some _ =>
        quiet globals (Some {| exn_class := Other "AttributeError"; exn_msg := "__self__" |})
    | None =>
        quiet globals (Some {| exn_class := Other "NameError";
                               exn_msg := "name 'secure_read_file' is not defined" |})
    end
  else quiet globals (Some {| exn_class := Other "NotImplementedError"; exn_msg := code |}).

End Examples.

(* ===================================================================== *)
(** * More vocabulary: the report of the scanner                          *)
(* ===================================================================== *)

(** One match of a table pattern: its category, the description of the
    pattern and the offset at which the match starts. *)
Definition hit : Type := string * string * nat.

Definition hits_of_pattern (code category : string) (pd : pattern * string) : list hit :=
  (fun start => (category, snd pd, start)) <$> finditer (fst pd) code.

Definition hits_of_category (code : string) (cp : string * list (pattern * string))
    : list hit :=
  flat_map (hits_of_pattern code (fst cp)) (snd cp).

(** All matches, category by category and pattern by pattern in table
    order, the matches of one pattern from left to right. *)
Definition hits (code : string) : list hit :=
  flat_map (hits_of_category code) patterns.

(** The line of an offset: one more than the newlines before it. *)
Definition line_of (code : string) (start : nat) : nat :=
  S (count_newlines (take start (chars code))).

(** The record for a match that is the [n]-th of the report. *)
Definition record_of (code : string) (n : nat) (h : hit) : Vulnerability :=
  let '(category, desc, start) := h in
  {| id := "OWASP-" +:+ fmt_04d n;
     category := category;
     severity := _get_severity category;
     title := desc;
     description := "Potential " +:+ desc +:+ " vulnerability detected";
     location := Some ("Line " +:+ pretty (line_of code start));
     remediation := Some (_get_remediation category) |}.

(** The severity the tables give a category: the three injection
    categories are critical, the two others high. *)
Definition table_severity (category : string) : Severity :=
  if decide (category ∈ ["A03:2021-Injection-SQL"; "A03:2021-Injection-XSS";
                         "A03:2021-Injection-CMD"])
  then critical else high.

(** [t] spells the literal [s] of a pattern: the same text, or the same up
    to the case of its letters when the pattern has the flag for it. *)
Definition spelled (ic : bool) (s t : string) : Prop :=
  if ic then lower <$> chars t = lower <$> chars s else t = s.

(* ===================================================================== *)
(** * main.py: the path endpoint                                          *)
(* ===================================================================== *)

Module Main.

(** [PathValidationResponse] *)
Record PathValidationResponse : Type := {
  valid : bool;
  resolved_path : option string;
  error : option string;
}.

(** What a request handler ends with: a response body, an
    [HTTPException], or an exception it does not catch. *)
Inductive reply (A : Type) : Type :=
  | Body (a : A)
  | HTTPException (status_code : Z) (detail : string)
  | Escapes (e : PyExn).
Arguments Body {A} a.
Arguments HTTPException {A} status_code detail.
Arguments Escapes {A} e.

(** The handler of [POST /validate/path]: the guard is built for each
    request, with auditing on. *)
Definition validate_path (project_root path : string) (w : World)
    : reply PathValidationResponse :=
  let tried :=
    match Isolation.__init__ project_root true w with
    | Raises e => Raises e
    | Returns isolation => Isolation.validate_path isolation path w
    end in
  match tried with
  | Returns validated_path =>
      Body {| valid := true;
              resolved_path := Some (Path_str validated_path);
              error := None |}
  | Raises e =>
      if is_PermissionError e
      then Body {| valid := false; resolved_path := None; error := Some (exn_msg e) |}
      else if is_Exception e
      then HTTPException 500 (exn_msg e)
      else Escapes e
  end.

End Main.

(* ===================================================================== *)
(** * Files: what [open] and [Path.mkdir] do                              *)
(* ===================================================================== *)

Module Fs.

(** The file system with the text of its regular files, by canonical
    path; a file without an entry is empty.  Text is what the files hold:
    code points below 128, which every locale encoding writes as they
    are.  Permissions, a full disk and the limits on the length of names
    are left out. *)
Record Disk : Type := {
  fs : World;
  data : gmap (list string) string;
}.

Inductive errno : Type := ENOENT | EEXIST | ENOTDIR | EISDIR.

(** The [OSError] subclass of an error number, with the text of [str]. *)
Definition os_error (n : errno) (q : list string) : PyExn :=
  let name := "'" +:+ Path_str {| absolute := true; parts := q |} +:+ "'" in
  match n with
  | ENOENT => {| exn_class := FileNotFoundError;
                 exn_msg := "[Errno 2] No such file or directory: " +:+ name |}
  | EEXIST => {| exn_class := Other "FileExistsError";
                 exn_msg := "[Errno 17] File exists: " +:+ name |}
  | ENOTDIR => {| exn_class := Other "NotADirectoryError";
                  exn_msg := "[Errno 20] Not a directory: " +:+ name |}
  | EISDIR => {| exn_class := Other "IsADirectoryError";
                 exn_msg := "[Errno 21] Is a directory: " +:+ name |}
  end.

Definition is_FileNotFoundError (e : PyExn) : bool :=
  match exn_class e with FileNotFoundError => true | _ => false end.

(** The walk of the system down the names [rest] from the directory
    [path], all of which have to be directories.  The paths walked here
    are canonical ones, what [validate_path] returned and its parents, so
    no name on the way is a symbolic link. *)
Fixpoint walk_dirs (w : World) (path rest : list string) : option errno :=
  match rest with
  | [] => None
  | name :: rest' =>
      let p := path ++ [name] in
      if decide (p ∈ dirs w) then walk_dirs w p rest'
      else if decide (p ∈ files w) then Some ENOTDIR
      else Some ENOENT
  end.

(** [p.parent] on the components; the root is its own parent. *)
Definition parent (q : list string) : list string := removelast q.

(** [p.is_dir()]: [stat] succeeds and finds a directory. *)
Definition is_dir (d : Disk) (q : list string) : bool :=
  match walk_dirs (fs d) [] q with None => true | Some _ => false end.

Definition add_dir (q : list string) (d : Disk) : Disk :=
  {| fs := {| cwd := cwd (fs d); links := links (fs d);
              dirs := {[ q ]} ∪ dirs (fs d); files := files (fs d) |};
     data := data d |}.

Definition put_file (q : list string) (content : string) (d : Disk) : Disk :=
  {| fs := {| cwd := cwd (fs d); links := links (fs d);
              dirs := dirs (fs d); files := {[ q ]} ∪ files (fs d) |};
     data := <[q := content]> (data d) |}.

(** [os.mkdir(p)]: the parent has to be a directory and the name free. *)
Definition os_mkdir (q : list string) (d : Disk) : outcome Disk :=
  match q with
  | [] => Raises (os_error EEXIST q)
  | _ =>
      match walk_dirs (fs d) [] (parent q) with
      | Some n => Raises (os_error n q)
      | None =>
          if decide (q ∈ dirs (fs d) \/ q ∈ files (fs d) \/ is_Some (links (fs d) !! q))
          then Raises (os_error EEXIST q)
          else Returns (add_dir q d)
      end
  end.

Definition recursion_error : PyExn :=
  {| exn_class := Other "RecursionError"; exn_msg := "maximum recursion depth exceeded" |}.

(** [Path.mkdir(parents=..., exist_ok=...)], with the disk as it is when
    the call returns or raises.  The first recursive call is on the
    parent, which is shorter; the second one, without [parents], does not
    recurse.  [fuel] bounds the nesting. *)
Fixpoint mkdir (fuel : nat) (parents exist_ok : bool) (q : list string) (d : Disk)
    : Disk * outcome unit :=
  match os_mkdir q d with
  | Returns d' => (d', Returns tt)
  | Raises e =>
      if is_FileNotFoundError e then
        if negb parents || bool_decide (parent q = q) then (d, Raises e)
        else
          match fuel with
          | O => (d, Raises recursion_error)
          | S fuel' =>
              match mkdir fuel' true true (parent q) d with
              | (d1, Raises e') => (d1, Raises e')
              | (d1, Returns _) => mkdir fuel' false exist_ok q d1
              end
          end
      else if negb exist_ok || negb (is_dir d q) then (d, Raises e)
      else (d, Returns tt)
  end.

(** Reading in text mode turns a carriage return, with the line feed
    after it if there is one, into a line feed. *)
Fixpoint universal_newlines (l : list ascii) : list ascii :=
  match l with
  | [] => []
  | a :: l' =>
      if decide (a = "013"%char) then
        match l' with
        | b :: l'' =>
            if decide (b = newline) then newline :: universal_newlines l''
            else newline :: universal_newlines l'
        | [] => [newline]
        end
      else a :: universal_newlines l'
  end.

(** [with open(p, "r") as f: return f.read()] *)
Definition read_text (q : list string) (d : Disk) : outcome string :=
  match walk_dirs (fs d) [] (parent q) with
  | Some n => Raises (os_error n q)
  | None =>
      if decide (q ∈ dirs (fs d)) then Raises (os_error EISDIR q)
      else if decide (q ∈ files (fs d))
      then Returns (text (universal_newlines (chars (default "" (data d !! q)))))
      else Raises (os_error ENOENT q)
  end.

(** [with open(p, "w") as f: f.write(content)]: the file is created or
    emptied, then written. *)
Definition write_text (q : list string) (content : string) (d : Disk)
    : outcome Disk :=
  match walk_dirs (fs d) [] (parent q) with
  | Some n => Raises (os_error n q)
  | None =>
      if decide (q ∈ dirs (fs d)) then Raises (os_error EISDIR q)
      else Returns (put_file q content d)
  end.

End Fs.

Import Fs.

(** [SecurePythonExecutor._secure_read_file] *)
Definition _secure_read_file (self : SecurePythonExecutor) (path : string) (d : Disk)
    : outcome string :=
  match validate_path (isolation self) path (fs d) with
  | Raises e => Raises e
  | Returns validated_path => read_text (parts validated_path) d
  end.

(** [SecurePythonExecutor._secure_write_file]; the disk is the one at the
    moment the method returns or raises. *)
Definition _secure_write_file (self : SecurePythonExecutor) (path content : string)
    (d : Disk) : Disk * outcome unit :=
  match validate_path (isolation self) path (fs d) with
  | Raises e => (d, Raises e)
  | Returns validated_path =>
      let q := parts validated_path in
      match mkdir (S (length (parent q))) true true (parent q) d with
      | (d1, Raises e) => (d1, Raises e)
      | (d1, Returns _) =>
          match write_text q content d1 with
          | Raises e => (d1, Raises e)
          | Returns d2 => (d2, Returns tt)
          end
      end
  end.





(** What a run of [mkdir] can change: directories only, each a prefix of
    the path asked for. *)
Definition made (q : list string) (d d1 : Disk) : Prop :=
  links (fs d1) = links (fs d) /\ cwd (fs d1) = cwd (fs d) /\
  files (fs d1) = files (fs d) /\ data d1 = data d /\
  dirs (fs d) ⊆ dirs (fs d1) /\
  forall p, p ∈ dirs (fs d1) -> p ∈ dirs (fs d) \/ (p <> [] /\ p `prefix_of` q).


Definition clean_check (name : string) : bool :=
  negb (bool_decide (name = "")) && negb (bool_decide (name = ".")) &&
  negb (bool_decide (name = "..")) && negb (has_nul name) &&
  negb (bool_decide ("/"%char ∈ chars name)).

(** [canon], to be computed: each name is clean and no prefix of one name
    or more is a link. *)
Definition canon_check (lk : gmap (list string) string) (p : list string) : bool :=
  forallb clean_check p &&
  forallb (fun k => bool_decide (lk !! take (S k) p = None)) (List.seq 0 (length p)).

(* ===================================================================== *)
(** * A disk, and two more things to run                                  *)
(* ===================================================================== *)

Module MoreExamples.
Import Examples.

(** The file system [w0] with a text in [/proj/src/a.py] that ends its
    line as Windows does. *)
Definition disk0 : Disk :=
  {| fs := w0;
     data := {[ ["proj"; "src"; "a.py"] :=
                  "print(1)" +:+ String "013"%char (String newline "") ]} |}.


(** A guard whose root has been removed since it was built. *)
Definition g_gone : ProjectIsolation :=
  {| project_root := {| absolute := true; parts := ["gone"] |}; enable_audit := true |}.



(** What the scanner reports for the SQL example. *)
Definition sql_finding : Vulnerability :=
  {| id := "OWASP-0001";
     category := "A03:2021-Injection-SQL";
     severity := critical;
     title := "SQL concatenation";
     description := "Potential SQL concatenation vulnerability detected";
     location := Some "Line 1";
     remediation :=
       Some "Use parameterized queries or ORM instead of string concatenation" |}.

End MoreExamples.

(* ===================================================================== *)
(** * Facts about text                                                    *)
(* ===================================================================== *)

Lemma startswith_spec p s : startswith p s = true <-> exists post, s = p +:+ post.
Proof.
  revert s. induction p as [|a p IH]; intros s; simpl.
  - split; [intros _; by exists s | done].
  - destruct s as [|b s].
    + split; [done | intros [post H]; discriminate H].
    + destruct (decide (a = b)) as [->|Hne].
      * rewrite IH. split; intros [post H]; exists post.
        -- by rewrite H.
        -- by injection H.
      * split; [done | intros [post H]; injection H; congruence].
Qed.

Lemma contains_spec p s : contains p s = true <-> substring p s.
Proof.
  induction s as [|a s IH].
  - simpl. destruct (startswith p "") eqn:E.
    + split; [intros _ | done].
      apply startswith_spec in E as [post E]. by exists "", post.
    + split; [done | intros (pre & post & H)].
      destruct pre; [|discriminate H].
      assert (startswith p "" = true) as E' by (apply startswith_spec; eauto).
      congruence.
  - cbn [contains]. destruct (startswith p (String a s)) eqn:E.
    + split; [intros _ | done].
      apply startswith_spec in E as [post E]. by exists "", post.
    + rewrite IH. split.
      * intros (pre & post & ->). by exists (String a pre), post.
      * intros (pre & post & H). destruct pre as [|b pre].
        -- assert (startswith p (String a s) = true) as E'
             by (apply startswith_spec; eauto).
           congruence.
        -- injection H as _ ->. by exists pre, post.
Qed.

Lemma app_cons (x : ascii) (a b : string) : String x a +:+ b = String x (a +:+ b).
Proof. reflexivity. Qed.

Lemma app_empty_l (a : string) : "" +:+ a = a.
Proof. reflexivity. Qed.

Lemma app_assoc_str (a b c : string) : (a +:+ b) +:+ c = a +:+ b +:+ c.
Proof. induction a as [|x a IH]; [done | by rewrite !app_cons, IH]. Qed.

Lemma app_empty_r (a : string) : a +:+ "" = a.
Proof. induction a as [|x a IH]; [done | by rewrite app_cons, IH]. Qed.

Lemma substring_app_r pre p s : substring p s -> substring p (pre +:+ s).
Proof.
  intros (a & b & ->). exists (pre +:+ a), b. by rewrite app_assoc_str.
Qed.

Lemma substring_app_l p s post : substring p s -> substring p (s +:+ post).
Proof.
  intros (a & b & ->). exists a, (b +:+ post). by rewrite !app_assoc_str.
Qed.

Lemma substring_refl s : substring s s.
Proof. exists "", "". by rewrite app_empty_r. Qed.

(** Every joined piece occurs in the joined text. *)
Lemma substring_join sep x l : x ∈ l -> substring x (join sep l).
Proof.
  induction l as [|y l IH]; [by intros ?%elem_of_nil|].
  intros [->|Hin]%elem_of_cons.
  - destruct l; simpl; [apply substring_refl|].
    apply substring_app_l, substring_refl.
  - destruct l as [|z l]; [by apply elem_of_nil in Hin|].
    change (join sep (y :: z :: l)) with (y +:+ sep +:+ join sep (z :: l)).
    by apply substring_app_r, substring_app_r, IH.
Qed.

(* ===================================================================== *)
(** * The scanner                                                         *)
(* ===================================================================== *)

Lemma count_severity_number_of sev vs : count_severity sev vs = number_of sev vs.
Proof.
  unfold number_of. induction vs as [|v vs IH]; [done|].
  cbn [count_severity foldr]. fold (count_severity sev vs). rewrite IH.
  rewrite filter_cons. destruct (decide (severity v = sev)); [|done].
  cbn [length]. lia.
Qed.

Lemma filter_nil_Forall {A} (P : A -> Prop) `{!forall x, Decision (P x)} (l : list A) :
  length (filter P l) = 0 <-> Forall (fun x => ~ P x) l.
Proof.
  induction l as [|x l IH]; [by split; [constructor|]|].
  rewrite filter_cons, Forall_cons. destruct (decide (P x)); cbn [length]; [|tauto].
  split; [lia | tauto].
Qed.

(** C2.  For every source text, the report of [validate] is [valid] exactly
    when no vulnerability in its list is critical or high, and its score is
    [max(0, 100 - 25 c - 15 h - 5 m)] for the numbers [c], [h] and [m] of
    critical, high and medium vulnerabilities in its list. *)
Theorem validate_valid_and_score (code : string) :
  let r := validate code in
  (valid r = true <->
     forall v, v ∈ vulnerabilities r -> severity v <> critical /\ severity v <> high) /\
  compliance_score r =
    Z.max 0 (100 - 25 * number_of critical (vulnerabilities r)
                 - 15 * number_of high (vulnerabilities r)
                 - 5 * number_of medium (vulnerabilities r)).
Proof.
  cbn zeta. unfold validate. cbn [valid vulnerabilities compliance_score]. split.
  - rewrite bool_decide_eq_true, filter_nil_Forall, Forall_forall.
    split; intros H v Hv; specialize (H v Hv); tauto.
  - rewrite !count_severity_number_of. f_equal. lia.
Qed.

(** C4.  Scanning the SQL example gives exactly one vulnerability, in the
    SQL injection category and critical; the report is not valid and its
    score is 75. *)
Theorem validate_sql_example :
  exists v,
    vulnerabilities (validate sql_example) = [v] /\
    category v = "A03:2021-Injection-SQL" /\
    severity v = critical /\
    valid (validate sql_example) = false /\
    compliance_score (validate sql_example) = 75%Z.
Proof. eexists. vm_compute. repeat split. Qed.

(* ===================================================================== *)
(** * The deny check                                                      *)
(* ===================================================================== *)

Lemma any_pattern_in_spec patterns code :
  any_pattern_in patterns code = true <->
  exists pattern, pattern ∈ patterns /\ substring pattern code.
Proof.
  induction patterns as [|p ps IH]; cbn [any_pattern_in].
  - split; [done | by intros (? & ?%elem_of_nil & _)].
  - destruct (contains p code) eqn:E.
    + split; [intros _ | done]. exists p. split; [left | by apply contains_spec].
    + rewrite IH. split.
      * intros (q & Hq & Hs). exists q. split; [by right | done].
      * intros (q & [->|Hq]%elem_of_cons & Hs); [|by eauto].
        apply contains_spec in Hs. congruence.
Qed.

Lemma import_patterns_idiom X idiom : idiom ∈ import_patterns X <-> import_idiom X idiom.
Proof.
  unfold import_patterns, import_idiom.
  rewrite !elem_of_cons, elem_of_nil. tauto.
Qed.

(** The loop with its [break] keeps, in table order, the blocked modules
    one of whose idioms occurs. *)
Lemma check_blocked_imports_filter self code :
  _check_blocked_imports self code =
  filter (fun b => any_pattern_in (import_patterns b) code = true) BLOCKED_IMPORTS.
Proof.
  unfold _check_blocked_imports.
  enough (forall l acc,
    foldl (fun found b => if any_pattern_in (import_patterns b) code
                          then found ++ [b] else found) acc l
    = acc ++ filter (fun b => any_pattern_in (import_patterns b) code = true) l)
    as H by apply H.
  induction l as [|b l IH]; intros acc; cbn [foldl].
  - by rewrite filter_nil, app_nil_r.
  - rewrite IH, filter_cons.
    destruct (any_pattern_in (import_patterns b) code); [|done].
    destruct (decide (true = true)); [|done]. by rewrite <- app_assoc.
Qed.

Lemma check_blocked_imports_spec self code X :
  X ∈ _check_blocked_imports self code <-> mentions_blocked code X.
Proof.
  rewrite check_blocked_imports_filter, list_elem_of_filter, any_pattern_in_spec.
  unfold mentions_blocked. split.
  - intros [(p & Hp%import_patterns_idiom & Hs) HX]. eauto.
  - intros [HX (p & Hp%import_patterns_idiom & Hs)]. eauto.
Qed.

(** C3.  If the code text holds an import idiom for a blocked module, then
    [execute] returns at once: the process state is the one it was given
    and the result is a failure without result or output, whatever the
    interpreter would have done; its error message names every blocked
    module the text holds an idiom for. *)
Theorem execute_blocked_import (self : SecurePythonExecutor) (code : string)
    (timeout_ms : Z) (w : World) (X : string) :
  mentions_blocked code X ->
  exists msg,
    (forall py_exec,
       execute py_exec self code timeout_ms w =
       (w, Returns {| success := false; result := VNone; output := None;
                      error := Some msg |})) /\
    (forall Y, mentions_blocked code Y -> substring Y msg).
Proof.
  intros HX%(check_blocked_imports_spec self).
  exists ("Blocked import detected: " +:+ join ", " (_check_blocked_imports self code)).
  split.
  - intros py_exec. unfold execute.
    destruct (_check_blocked_imports self code); [by apply elem_of_nil in HX | done].
  - intros Y HY%(check_blocked_imports_spec self).
    by apply substring_app_r, substring_join.
Qed.

(* ===================================================================== *)
(** * The boundary guard                                                  *)
(* ===================================================================== *)

Lemma is_relative_to_inside p root : is_relative_to p root = true <-> inside root p.
Proof.
  unfold is_relative_to, inside.
  rewrite andb_true_iff, !bool_decide_eq_true. reflexivity.
Qed.

Lemma validate_path_unfold g path w :
  validate_path g path w =
  match canonical_form g path w with
  | Raises e => Raises e
  | Returns target =>
      if is_relative_to target (project_root g) then Returns target
      else Raises {| exn_class := PermissionError;
                     exn_msg := "Path traversal detected: " +:+ path |}
  end.
Proof.
  unfold validate_path, canonical_form, is_absolute. cbn [Path_of absolute].
  destruct (startswith "/" path);
    (destruct (resolve w _) as [t|e]; [by destruct (is_relative_to _ _) | done]).
Qed.

(* ===================================================================== *)
(** * The executor                                                        *)
(* ===================================================================== *)

(** What [execute] does once the deny check has passed and the working
    directory is known. *)
Lemma execute_unfold py_exec self code timeout_ms w old_cwd :
  _check_blocked_imports self code = [] ->
  os_getcwd w = Returns old_cwd ->
  execute py_exec self code timeout_ms w =
  let '(st1, r) :=
    match os_chdir (project_root (isolation self)) w with
    | Raises e => ((w, ("", "")), Raises e)
    | Returns w1 => __call__ (run_code py_exec code (_create_safe_globals self)) (w1, ("", ""))
    end in
  let '(w', (out, err), r') :=
    match os_chdir old_cwd (fst st1) with
    | Raises e => (st1, Raises e)
    | Returns w2 => ((w2, snd st1), r)
    end in
  match r' with
  | Returns res =>
      (w', Returns {| success := true; result := res;
                      output := or_None out; error := or_None err |})
  | Raises e =>
      if is_Exception e
      then (w', Returns {| success := false; result := VNone;
                           output := or_None out; error := Some (exn_msg e) |})
      else (w', Raises e)
  end.
Proof.
  intros Hblocked Hcwd. unfold execute, sandbox_exec. rewrite Hblocked.
  cbn [fst snd]. rewrite Hcwd. cbn [run_code __name__].
  destruct (enable_audit (isolation self));
    (destruct (os_chdir (project_root (isolation self)) w) as [w1|e];
     [destruct (__call__ _ (w1, _)) as [st1 r]|]; reflexivity).
Qed.


(** Conversely, [execute] reports success only on such a run. *)
Lemma execute_success_inv py_exec self code timeout_ms w w' r :
  execute py_exec self code timeout_ms w = (w', Returns r) ->
  success r = true ->
  exists w1,
    os_chdir (project_root (isolation self)) w = Returns w1 /\
    raised (py_exec code (_create_safe_globals self) w1) = None.
Proof.
  intros Hex Hsucc.
  destruct (_check_blocked_imports self code) eqn:Hblocked.
  2: { unfold execute in Hex. rewrite Hblocked in Hex.
       by simplify_eq. }
  destruct (os_getcwd w) as [old|e] eqn:Hcwd.
  2: { unfold execute, sandbox_exec in Hex. rewrite Hblocked in Hex.
       cbn [fst snd] in Hex. rewrite Hcwd in Hex.
       destruct (is_Exception e); by simplify_eq. }
  rewrite (execute_unfold _ _ _ _ _ _ Hblocked Hcwd) in Hex.
  destruct (os_chdir (project_root (isolation self)) w) as [w1|e].
  2: { cbn [fst] in Hex. destruct (os_chdir old w) as [w2|e2]; cbn [fst snd] in Hex.
       - destruct (is_Exception e); by simplify_eq.
       - destruct (is_Exception e2); by simplify_eq. }
  exists w1. split; [done|].
  cbn [run_code __call__ fst snd] in Hex.
  destruct (raised (py_exec code (_create_safe_globals self) w1)) as [e|]; [|done].
  cbn [fst] in Hex. destruct (os_chdir old _) as [w2|e2]; cbn [fst snd] in Hex.
  - destruct (is_Exception e); by simplify_eq.
  - destruct (is_Exception e2); by simplify_eq.
Qed.

(* ===================================================================== *)
(** * Splitting and joining                                               *)
(* ===================================================================== *)

Lemma split_nonempty c s : split c s <> [].
Proof.
  destruct s as [|a s]; cbn [split]; [done|].
  destruct (decide (a = c)); [done|]. by destruct (split c s).
Qed.

Lemma split_no_sep c s : Forall (fun name => c ∉ chars name) (split c s).
Proof.
  induction s as [|a s IH]; cbn [split].
  - constructor; [|constructor]. by intros ?%elem_of_nil.
  - destruct (decide (a = c)) as [->|Hne].
    + constructor; [by intros ?%elem_of_nil | done].
    + destruct (split c s) as [|x xs]; [repeat constructor|].
      * cbn. by intros [?|?%elem_of_nil]%elem_of_cons.
      * inversion IH as [|? ? Hx Hxs]; subst. constructor; [|done].
        cbn. by intros [?|?]%elem_of_cons.
Qed.

Lemma split_app_sep c x r :
  c ∉ chars x -> split c (x +:+ String c r) = x :: split c r.
Proof.
  induction x as [|a x IH]; intros Hx.
  - rewrite app_empty_l. cbn [split]. by destruct (decide (c = c)).
  - rewrite app_cons. cbn [split].
    cbn in Hx. apply not_elem_of_cons in Hx as [Hac Hx].
    destruct (decide (a = c)); [congruence|]. by rewrite IH.
Qed.

Lemma split_no_sep_id c x : c ∉ chars x -> split c x = [x].
Proof.
  induction x as [|a x IH]; intros Hx; [done|].
  cbn [split]. cbn in Hx. apply not_elem_of_cons in Hx as [Hac Hx].
  destruct (decide (a = c)); [congruence|]. by rewrite IH.
Qed.

Lemma split_join c l :
  l <> [] -> Forall (fun name => c ∉ chars name) l ->
  split c (join (String c "") l) = l.
Proof.
  induction l as [|x l IH]; [done|]. intros _ Hl.
  inversion Hl as [|? ? Hx Hl']; subst.
  destruct l as [|y l].
  - cbn [join]. by apply split_no_sep_id.
  - change (join (String c "") (x :: y :: l))
      with (x +:+ String c "" +:+ join (String c "") (y :: l)).
    rewrite app_cons, app_empty_l.
    rewrite split_app_sep by done. f_equal. by apply IH.
Qed.

Lemma has_nul_cons a s : has_nul (String a s) = bool_decide (a = nul) || has_nul s.
Proof. reflexivity. Qed.

(** A null byte in a text is in one of its pieces. *)
Lemma has_nul_split c s :
  c <> nul -> has_nul s = true -> exists name, name ∈ split c s /\ has_nul name = true.
Proof.
  intros Hc. induction s as [|a s IH]; [done|].
  rewrite has_nul_cons. cbn [split]. intros H.
  destruct (decide (a = c)) as [->|Hne].
  - rewrite bool_decide_eq_false_2 in H by done.
    destruct (IH H) as (name & Hin & Hn). exists name. split; [by right | done].
  - destruct (split c s) as [|x xs] eqn:E.
    + exists (String a ""). split; [left|].
      apply orb_true_iff in H as [H|H]; [by rewrite has_nul_cons, H|].
      destruct (IH H) as (? & ?%elem_of_nil & _); done.
    + apply orb_true_iff in H as [H|H].
      * exists (String a x). split; [left | by rewrite has_nul_cons, H].
      * destruct (IH H) as (name & [->|Hin]%elem_of_cons & Hn).
        -- exists (String a x). split; [left|].
           rewrite has_nul_cons, Hn. apply orb_true_r.
        -- exists name. split; [by right | done].
Qed.

(* ===================================================================== *)
(** * [realpath]                                                          *)
(* ===================================================================== *)

Section Realpath.
Variable lk : gmap (list string) string.

Lemma joinrealpath_nil fuel path seen :
  joinrealpath fuel lk path [] seen = Done path seen.
Proof. by destruct fuel. Qed.

(** The loop body of [joinrealpath], one name at a time. *)
Lemma joinrealpath_cons fuel path name rest seen :
  joinrealpath fuel lk path (name :: rest) seen =
  if decide (name = "" \/ name = ".") then joinrealpath fuel lk path rest seen
  else if decide (name = "..") then joinrealpath fuel lk (removelast path) rest seen
  else if has_nul name then BadName
  else
    match lk !! (path ++ [name]) with
    | None => joinrealpath fuel lk (path ++ [name]) rest seen
    | Some target =>
        match seen !! (path ++ [name]) with
        | Some (Some p) => joinrealpath fuel lk p rest seen
        | Some None => Loop ((path ++ [name]) ++ rest)
        | None =>
            match fuel with
            | O => OutOfFuel
            | S fuel' =>
                match
                  joinrealpath fuel' lk
                    (if startswith "/" target then [] else path)
                    (split "/" target) (<[path ++ [name] := None]> seen)
                with
                | Done p seen' =>
                    joinrealpath fuel lk p rest (<[path ++ [name] := Some p]> seen')
                | Loop u => Loop (u ++ rest)
                | BadName => BadName
                | OutOfFuel => OutOfFuel
                end
            end
        end
    end.
Proof. by destruct fuel. Qed.

(** Case analysis along [joinrealpath_cons]. *)
Ltac walk_cases :=
  rewrite joinrealpath_cons;
  repeat first [ case_decide | case_match ]; simplify_eq.

(** A name with a null byte is never walked past. *)
Lemma joinrealpath_null_byte fuel path rest seen :
  (exists name, name ∈ rest /\ has_nul name = true) ->
  forall p seen', joinrealpath fuel lk path rest seen <> Done p seen'.
Proof.
  revert path rest seen. induction fuel as [|fuel IHf];
    (intros path rest; revert path;
     induction rest as [|name rest IH]; intros path seen (bad & Hin & Hbad) p seen';
     [by apply elem_of_nil in Hin|]);
    apply elem_of_cons in Hin as [<-|Hin];
    walk_cases; try done;
    try (by destruct_or!; subst; discriminate Hbad);
    try (by apply IH; eauto).
Qed.

(** When the walk stops at a loop, a name with a null byte that was still
    to be walked is among the unresolved names. *)
Lemma joinrealpath_loop_null_byte fuel path rest seen u :
  joinrealpath fuel lk path rest seen = Loop u ->
  (exists name, name ∈ rest /\ has_nul name = true) ->
  existsb has_nul u = true.
Proof.
  revert path seen u.
  induction rest as [|name rest IH]; intros path seen u Hwalk (bad & Hin & Hbad);
    [by apply elem_of_nil in Hin|].
  assert (forall l : list string, bad ∈ l -> existsb has_nul l = true) as Hex.
  { intros l Hl. apply existsb_exists. exists bad. by rewrite <- list_elem_of_In. }
  revert Hwalk. apply elem_of_cons in Hin as [<-|Hin].
  - walk_cases; try done; by destruct_or!; subst; discriminate Hbad.
  - walk_cases; try done; intros Hwalk; try (by eapply IH; eauto).
    all: injection Hwalk as <-; apply Hex, elem_of_app; by right.
Qed.

(** [seen] only grows. *)
Lemma joinrealpath_seen_grows fuel path rest seen p seen' :
  joinrealpath fuel lk path rest seen = Done p seen' -> dom seen ⊆ dom seen'.
Proof.
  revert path rest seen p seen'. induction fuel as [|fuel IHf];
    (intros path rest; revert path;
     induction rest as [|name rest IH]; intros path seen p seen';
     [rewrite joinrealpath_nil; by intros [= _ <-]|]);
    walk_cases; try done; try (by apply IH).
  all: intros Hrest; apply IH in Hrest.
  all: match goal with H : joinrealpath _ _ _ _ _ = Done _ _ |- _ => apply IHf in H end.
  all: set_solver.
Qed.

Lemma unseen_link (seen : seen_map) (l : list string) (target : string) :
  lk !! l = Some target -> seen !! l = None -> l ∈ dom lk ∖ dom seen.
Proof.
  intros. apply elem_of_difference. split; [by apply elem_of_dom | by apply not_elem_of_dom].
Qed.

(** As many units of fuel as there are links not yet seen are enough. *)
Lemma joinrealpath_fuel fuel path rest seen :
  size (dom lk ∖ dom seen) <= fuel ->
  joinrealpath fuel lk path rest seen <> OutOfFuel.
Proof.
  revert path rest seen. induction fuel as [|fuel IHf];
    (intros path rest; revert path;
     induction rest as [|name rest IH]; intros path seen Hsize;
     [by rewrite joinrealpath_nil|]);
    walk_cases; try done; try (by apply IH).
  all: match goal with
       | Hl : lk !! ?l = Some _, Hs : ?sn !! ?l = None |- _ =>
           pose proof (unseen_link sn l _ Hl Hs) as Hun
       end.
  (* the target resolved: go on with the names left *)
  all: try (match goal with H : joinrealpath _ _ _ _ _ = Done _ _ |- _ =>
         apply joinrealpath_seen_grows in H end;
         apply IH; etrans; [|exact Hsize]; apply subseteq_size; set_solver).
  (* the target cannot run out of fuel *)
  all: try (match goal with H : joinrealpath _ _ _ _ _ = OutOfFuel |- _ =>
         exfalso; revert H; apply IHf end;
         match type of Hun with ?l ∈ dom lk ∖ dom ?sn =>
           assert (dom lk ∖ dom (<[l := None]> sn) = (dom lk ∖ dom sn) ∖ {[l]}) as ->
             by set_solver
         end;
         rewrite size_difference by set_solver; rewrite size_singleton; lia).
  (* no fuel at all, yet an unseen link *)
  all: match type of Hun with _ ∈ ?X =>
         assert (size X <> 0) by (apply size_non_empty_iff; set_solver)
       end.
  all: lia.
Qed.

Lemma prefix_snoc_inv {A} (q p : list A) (x : A) :
  q `prefix_of` p ++ [x] -> q `prefix_of` p \/ q = p ++ [x].
Proof.
  intros [k Hk]. destruct k as [|y k _] using rev_ind.
  - right. by rewrite app_nil_r in Hk.
  - left. rewrite app_assoc in Hk. apply app_inj_tail in Hk as [-> _].
    by apply prefix_app_r.
Qed.

Lemma canon_nil : canon lk [].
Proof.
  split; [constructor|]. intros q Hq Hpre. by apply prefix_nil_inv in Hpre.
Qed.

Lemma removelast_prefix {A} (p : list A) : removelast p `prefix_of` p.
Proof.
  destruct p as [|x p _] using rev_ind; [done|].
  rewrite removelast_last. by apply prefix_app_r.
Qed.

Lemma canon_prefix p q : canon lk p -> q `prefix_of` p -> canon lk q.
Proof.
  intros [Hclean Hlinks] Hpre. split.
  - destruct Hpre as [k ->]. by apply Forall_app in Hclean as [? _].
  - intros r Hr Hrq. apply Hlinks; [done | by etrans].
Qed.

Lemma canon_snoc p name :
  canon lk p -> clean name -> lk !! (p ++ [name]) = None -> canon lk (p ++ [name]).
Proof.
  intros [Hclean Hlinks] Hname Hnone. split.
  - apply Forall_app. split; [done | by constructor].
  - intros q Hq [Hpre| ->]%prefix_snoc_inv; [by apply Hlinks | done].
Qed.

Lemma seen_ok_insert_None seen l : seen_ok lk seen -> seen_ok lk (<[l := None]> seen).
Proof.
  intros Hok l' p. rewrite lookup_insert. case_decide; [done | apply Hok].
Qed.

Lemma seen_ok_insert_Some seen l p :
  seen_ok lk seen -> canon lk p -> seen_ok lk (<[l := Some p]> seen).
Proof.
  intros Hok Hp l' p'. rewrite lookup_insert. case_decide; [by intros [= <-] | apply Hok].
Qed.

(** From a canonical start the walk ends on a canonical path. *)
Lemma joinrealpath_canon fuel path rest seen p seen' :
  canon lk path -> seen_ok lk seen -> Forall no_slash rest ->
  joinrealpath fuel lk path rest seen = Done p seen' ->
  canon lk p /\ seen_ok lk seen'.
Proof.
  revert path rest seen p seen'. induction fuel as [|fuel IHf];
    (intros path rest; revert path;
     induction rest as [|name rest IH]; intros path seen p seen' Hpath Hseen Hrest;
     [rewrite joinrealpath_nil; by intros [= <- <-]|]);
    apply Forall_cons in Hrest as [Hname Hrest];
    walk_cases; try done.
  all: try (by apply IH).
  all: try (by apply IH; [eapply canon_prefix, removelast_prefix | |]).
  all: try (by apply IH; [apply canon_snoc; [|repeat split|] | |];
            try done; naive_solver).
  all: try (by apply IH; [eapply Hseen | |]).
  all: match goal with H : joinrealpath _ _ _ _ _ = Done _ _ |- _ =>
         apply IHf in H as [? ?];
         [ | first [apply canon_nil | done] | by apply seen_ok_insert_None
           | apply split_no_sep ]
       end.
  all: by apply IH; [| apply seen_ok_insert_Some |].
Qed.

(** A canonical path is walked without a change. *)
Lemma joinrealpath_id fuel path rest seen :
  canon lk (path ++ rest) ->
  joinrealpath fuel lk path rest seen = Done (path ++ rest) seen.
Proof.
  revert path. induction rest as [|name rest IH]; intros path Hcanon.
  - by rewrite joinrealpath_nil, app_nil_r.
  - assert (clean name) as (? & ? & ? & Hnul & ?).
    { destruct Hcanon as [Hclean _].
      apply Forall_app in Hclean as [_ Hclean]. by inversion Hclean. }
    assert (lk !! (path ++ [name]) = None) as Hnone.
    { apply Hcanon; [by destruct path | ].
      exists rest. by rewrite <- app_assoc. }
    rewrite joinrealpath_cons, Hnul, Hnone.
    rewrite decide_False by naive_solver. rewrite decide_False by done.
    rewrite IH by (by rewrite <- app_assoc). by rewrite <- app_assoc.
Qed.

End Realpath.

(* ===================================================================== *)
(** * [resolve]                                                           *)
(* ===================================================================== *)

(** The fuel [realpath] starts with is never used up. *)
Lemma realpath_fuel w p : realpath w p <> OutOfFuel.
Proof.
  unfold realpath. apply joinrealpath_fuel.
  rewrite dom_empty_L, difference_empty_L, size_dom. done.
Qed.

Lemma resolve_Returns w p t :
  resolve w p = Returns t <->
  exists seen, realpath w p = Done (parts t) seen /\ absolute t = true /\
               (absolute p = true \/ cwd w ∈ dirs w).
Proof.
  unfold resolve. destruct (realpath w p) as [q seen|u| |] eqn:E.
  - destruct (negb (absolute p) && _) eqn:Hcwd.
    + split; [done|]. intros (_ & _ & _ & [Hp|Hd]).
      * by rewrite Hp in Hcwd.
      * by rewrite bool_decide_eq_true_2, andb_false_r in Hcwd.
    + split.
      * intros [= <-]. exists seen. repeat split.
        destruct (absolute p); [by left|]. right.
        cbn in Hcwd. apply negb_false_iff in Hcwd. by apply bool_decide_eq_true in Hcwd.
      * intros (seen' & [= -> _] & Habs & _). destruct t as [a ps]. cbn in *. by subst.
  - destruct (negb (absolute p) && _); [|destruct (existsb has_nul u)];
      (split; [done | by intros (? & ? & _)]).
  - split; [done | by intros (? & ? & _)].
  - split; [done | by intros (? & ? & _)].
Qed.

Lemma resolve_absolute w p t : resolve w p = Returns t -> absolute t = true.
Proof. intros (_ & _ & H & _)%resolve_Returns. exact H. Qed.


(** What [resolve] returns is canonical, provided the walk started from a
    canonical place: the root, or a canonical working directory. *)
Lemma resolve_canon w p t :
  resolve w p = Returns t ->
  absolute p = true \/ canon (links w) (cwd w) ->
  canon (links w) (parts t).
Proof.
  intros (seen & Hwalk & _)%resolve_Returns Hstart. unfold realpath in Hwalk.
  eapply joinrealpath_canon in Hwalk as [? _]; [done | | done | apply split_no_sep].
  destruct Hstart as [-> | Hcwd]; [apply canon_nil|].
  destruct (absolute p); [apply canon_nil | done].
Qed.

Lemma split_leading_sep c s : split c (String c s) = "" :: split c s.
Proof. cbn [split]. by rewrite decide_True. Qed.

(** A canonical path resolves to itself. *)
Lemma resolve_id w q :
  canon (links w) q ->
  resolve w {| absolute := true; parts := q |} = Returns {| absolute := true; parts := q |}.
Proof.
  intros Hq. unfold resolve, realpath, Path_str. cbn [absolute parts].
  change ("/" +:+ ?s) with (String "/" s). rewrite split_leading_sep.
  rewrite joinrealpath_cons, decide_True by auto.
  destruct q as [|x q].
  - cbn [join split]. rewrite joinrealpath_cons, decide_True by auto.
    by rewrite joinrealpath_nil.
  - rewrite split_join; [|done|].
    + by rewrite joinrealpath_id.
    + destruct Hq as [Hclean _]. eapply Forall_impl; [exact Hclean|].
      by intros name (_ & _ & _ & _ & ?).
Qed.

(** [resolve] is idempotent on what it returns for absolute paths. *)
Lemma resolve_idem w p t :
  resolve w p = Returns t ->
  absolute p = true \/ canon (links w) (cwd w) ->
  resolve w t = Returns t.
Proof.
  intros Hres Hstart. pose proof (resolve_absolute _ _ _ Hres) as Habs.
  pose proof (resolve_canon _ _ _ Hres Hstart) as Hcanon.
  destruct t as [a q]. cbn in *. subst a. by apply resolve_id.
Qed.

(* ===================================================================== *)
(** * The boundary guard and the file system                              *)
(* ===================================================================== *)

(** What [validate_path] returns was resolved from an absolute path, so it
    is canonical: absolute, with clean names, and free of symbolic links. *)
Lemma validate_path_canon g path w t :
  validate_path g path w = Returns t ->
  absolute t = true /\ canon (links w) (parts t).
Proof.
  rewrite validate_path_unfold.
  destruct (canonical_form g path w) as [c|e] eqn:Hcanon; [|done].
  destruct (is_relative_to c (project_root g)) eqn:Hrel; [|done].
  intros [= ->]. apply is_relative_to_inside in Hrel as [Habs _].
  pose proof Hcanon as Hres. unfold canonical_form in Hres.
  destruct (startswith "/" path) eqn:Hslash.
  - split; [by eapply resolve_absolute|].
    eapply resolve_canon; [exact Hres | by left].
  - pose proof (resolve_absolute _ _ _ Hres) as Ht. split; [done|].
    eapply resolve_canon; [exact Hres | left].
    unfold joinpath. cbn [Path_of absolute]. rewrite Hslash.
    cbn [absolute]. congruence.
Qed.


Lemma has_nul_app a b : has_nul (a +:+ b) = has_nul a || has_nul b.
Proof.
  induction a as [|x a IH]; [done|].
  rewrite app_cons, !has_nul_cons, IH. by rewrite orb_assoc.
Qed.

Lemma has_nul_join sep l name :
  name ∈ l -> has_nul name = true -> has_nul (join sep l) = true.
Proof.
  induction l as [|y l IH]; [by intros ?%elem_of_nil|].
  intros [->|Hin]%elem_of_cons Hn.
  - destruct l; cbn [join]; [done|]. by rewrite has_nul_app, Hn.
  - destruct l as [|z l]; [by apply elem_of_nil in Hin|].
    change (join sep (y :: z :: l)) with (y +:+ sep +:+ join sep (z :: l)).
    rewrite !has_nul_app, (IH Hin Hn). by rewrite !orb_true_r.
Qed.

Lemma has_nul_Path_str p name :
  name ∈ parts p -> has_nul name = true -> has_nul (Path_str p) = true.
Proof.
  intros Hin Hn. unfold Path_str. destruct (absolute p).
  - rewrite has_nul_app, (has_nul_join _ _ _ Hin Hn). apply orb_true_r.
  - destruct (parts p) eqn:E; [by apply elem_of_nil in Hin|].
    by apply (has_nul_join _ _ name).
Qed.

(** An absolute path with a null byte in one of its names does not
    resolve: [resolve] raises [ValueError]. *)
Lemma resolve_null_byte w p name :
  absolute p = true -> name ∈ parts p -> has_nul name = true ->
  resolve w p = Raises null_byte.
Proof.
  intros Habs Hin Hn.
  assert (exists bad, bad ∈ split "/" (Path_str p) /\ has_nul bad = true) as Hbad.
  { apply has_nul_split; [done|]. by apply (has_nul_Path_str _ name). }
  pose proof (realpath_fuel w p) as Hfuel.
  unfold resolve. rewrite Habs. cbn [negb andb]. unfold realpath in *.
  destruct (joinrealpath _ _ _ _ _) as [q seen|u| |] eqn:Hwalk; [| |done|done].
  - by apply joinrealpath_null_byte in Hwalk.
  - by rewrite (joinrealpath_loop_null_byte _ _ _ _ _ _ Hwalk Hbad).
Qed.

Lemma Path_of_null_byte path :
  has_nul path = true -> exists name, name ∈ parts (Path_of path) /\ has_nul name = true.
Proof.
  intros (name & Hin & Hn)%(has_nul_split "/"); [|done].
  exists name. split; [|done]. cbn [Path_of parts].
  apply list_elem_of_filter. split; [|done].
  split; intros ->; discriminate Hn.
Qed.

(** [validate_path] lets the [ValueError] of [resolve] through when the
    path has a null byte, and [is_safe_path] does not catch it. *)
Lemma is_safe_path_raises g path w :
  absolute (project_root g) = true ->
  has_nul path = true ->
  validate_path g path w = Raises null_byte /\ is_safe_path g path w = Raises null_byte.
Proof.
  intros Hroot (name & Hin & Hn)%Path_of_null_byte.
  assert (canonical_form g path w = Raises null_byte) as He.
  { unfold canonical_form. destruct (startswith "/" path) eqn:Hslash.
    - by apply (resolve_null_byte _ _ name).
    - apply (resolve_null_byte _ _ name); [| |done];
        unfold joinpath; cbn [Path_of absolute]; rewrite Hslash; cbn [absolute parts].
      + done.
      + apply elem_of_app. by right. }
  unfold is_safe_path. by rewrite validate_path_unfold, He.
Qed.


(** When [is_safe_path] does return, it says whether [validate_path]
    accepts the path. *)
Lemma is_safe_path_Returns g path w b :
  is_safe_path g path w = Returns b ->
  (b = true <-> exists t, validate_path g path w = Returns t).
Proof.
  unfold is_safe_path. destruct (validate_path g path w) as [t|e].
  - intros [= <-]. split; [by eauto | done].
  - destruct (is_PermissionError e); [|done].
    intros [= <-]. split; [done | by intros [? ?]].
Qed.

(** C6 (as the code has it).  On the path that is a single null byte,
    [is_safe_path] raises, for every guard with an absolute root (as
    [__init__] stores it) and every file system: [validate_path] re-raises
    the [ValueError] of [resolve], and [is_safe_path] catches
    [PermissionError] only. *)
Theorem is_safe_path_null_byte (g : ProjectIsolation) (w : World) :
  absolute (project_root g) = true ->
  is_safe_path g null_path w = Raises null_byte /\
  validate_path g null_path w = Raises null_byte /\
  is_PermissionError null_byte = false.
Proof.
  intros Hroot. destruct (is_safe_path_raises g null_path w) as [? ?]; done.
Qed.

Lemma startswith_slash_clean x s :
  x <> "" -> no_slash x -> startswith "/" (x +:+ s) = false.
Proof.
  destruct x as [|a x]; [done|]. intros _ Hx. rewrite app_cons.
  cbn [startswith]. destruct (decide ("/"%char = a)) as [<-|]; [|done].
  exfalso. apply Hx. cbn. left.
Qed.

Lemma filter_Forall_id {A} (P : A -> Prop) `{!forall x, Decision (P x)} (l : list A) :
  Forall P l -> filter P l = l.
Proof.
  induction 1 as [|x l Hx _ IH]; [done|]. by rewrite filter_cons_True, IH.
Qed.

(** Reading back the text of a relative path with clean names. *)
Lemma Path_of_Path_str_relative below :
  Forall clean below ->
  Path_of (Path_str {| absolute := false; parts := below |})
  = {| absolute := false; parts := below |}.
Proof.
  intros Hclean. unfold Path_str. cbn [absolute parts].
  destruct below as [|x l]; [done|].
  assert (Forall no_slash (x :: l)) as Hns.
  { eapply Forall_impl; [exact Hclean|]. by intros name (_ & _ & _ & _ & ?). }
  unfold Path_of. f_equal.
  - inversion Hclean as [|? ? (Hx & _ & _ & _ & Hsl) _]; subst.
    destruct l as [|y l]; cbn [join].
    + rewrite <- (app_empty_r x). by apply startswith_slash_clean.
    + by apply startswith_slash_clean.
  - rewrite split_join by done. apply filter_Forall_id.
    eapply Forall_impl; [exact Hclean|]. by intros name (? & ? & _).
Qed.

(** Joining the root with a path relative to it gives the path back. *)
Lemma joinpath_relative_to t root rel :
  relative_to t root = Returns rel -> absolute t = true ->
  joinpath root rel = t /\ parts t = parts root ++ parts rel.
Proof.
  unfold relative_to. destruct (is_relative_to t root) eqn:E; [|done].
  intros [= <-] Habs. apply is_relative_to_inside in E as [Ha [below Hb]].
  cbn [parts]. rewrite Hb, drop_app_length.
  split; [|done]. unfold joinpath. cbn [absolute parts].
  destruct t as [a ps]. cbn in *. by subst.
Qed.


(** What [__init__] stores is canonical in the file system it ran in. *)
Lemma init_canonical_root root_text audit w g :
  Isolation.__init__ root_text audit w = Returns g ->
  absolute (Path_of root_text) = true \/ canon (links w) (cwd w) ->
  canonical_root g w.
Proof.
  unfold Isolation.__init__, canonical_root.
  destruct (resolve w (Path_of root_text)) as [root|e] eqn:Hres; [|done].
  destruct (negb (exists_ w root)); [done|]. intros [= <-] Hstart.
  cbn [project_root]. by eapply resolve_idem.
Qed.

(** C10.  For a guard whose root is canonical, the empty path validates,
    and what [validate_path] returns is the root itself. *)
Theorem validate_empty_path (g : ProjectIsolation) (w : World) :
  canonical_root g w ->
  validate_path g "" w = Returns (project_root g).
Proof.
  unfold canonical_root. intros Hroot.
  rewrite validate_path_unfold. unfold canonical_form. cbn [startswith].
  assert (joinpath (project_root g) (Path_of "") = project_root g) as ->.
  { unfold joinpath. cbn. rewrite app_nil_r. by destruct (project_root g). }
  rewrite Hroot.
  assert (is_relative_to (project_root g) (project_root g) = true) as ->; [|done].
  apply is_relative_to_inside. split; [done|]. exists []. by rewrite app_nil_r.
Qed.

(* ===================================================================== *)
(** * The pinned-directory scope                                          *)
(* ===================================================================== *)

Lemma set_cwd_cwd w : set_cwd (cwd w) w = w.
Proof. by destruct w. Qed.

Lemma enterable_is_dir w d : enterable w d -> d ∈ dirs w.
Proof.
  unfold enterable, os_chdir.
  destruct (realpath w _) as [q seen|u| |]; try done.
  destruct (decide (q ∈ dirs w)) as [Hq|]; [|done].
  intros [= Heq]. by subst.
Qed.

(** C8 (as the code has it).  If the working directory at entry can be
    entered under its name, and still can when the callback is done, then
    after [sandbox_exec] the working directory is the one at entry, whether
    the callback returned or raised.  The call hands on what the callback
    returned or raised, and but for the working directory the state is as
    the callback left it, or as it was if the callback was never called. *)
Theorem sandbox_exec_restores_cwd {H A : Type} (g : ProjectIsolation)
    (func : Callable H A) (st : World * H) :
  enterable (fst st) (cwd (fst st)) ->
  (forall w1, os_chdir (project_root g) (fst st) = Returns w1 ->
              enterable (fst (fst (__call__ func (w1, snd st)))) (cwd (fst st))) ->
  cwd (fst (fst (sandbox_exec g func st))) = cwd (fst st) /\
  exists s1 r1,
    sandbox_exec g func st = (set_cwd (cwd (fst st)) (fst s1), snd s1, r1) /\
    ((s1 = st /\ exists e, r1 = Raises e) \/
     (exists w1, os_chdir (project_root g) (fst st) = Returns w1 /\
                 __call__ func (w1, snd st) = (s1, r1))).
Proof.
  intros Hentry Hafter. unfold sandbox_exec.
  pose proof (enterable_is_dir _ _ Hentry) as Hdir.
  unfold os_getcwd. rewrite decide_True by done.
  destruct (enable_audit g), (__name__ func) as [name|].
  2: { (* auditing, and the callable has no name: nothing was done *)
       cbn [fst snd]. split; [done|]. eexists st, _.
       rewrite set_cwd_cwd. split; [by destruct st | left; eauto]. }
  all: destruct (os_chdir (project_root g) (fst st)) as [w1|e] eqn:Hpin.
  all: try (* the callback ran *)
    (specialize (Hafter w1 eq_refl);
     destruct (__call__ func (w1, snd st)) as [s1 r1] eqn:Hf; cbn [fst snd] in *;
     unfold enterable in Hafter; rewrite Hafter; cbn [fst snd];
     split; [done|]; exists s1, r1; split; [done|]; right; by exists w1).
  all: (* the project root could not be entered *)
    unfold enterable in Hentry; rewrite Hentry; cbn [fst snd];
    rewrite set_cwd_cwd; split; [done|]; exists st, (Raises e);
    rewrite set_cwd_cwd; split; [by destruct st | left; eauto].
Qed.

(* ===================================================================== *)
(** * The authorized imports                                              *)
(* ===================================================================== *)

(** The globals of two executors over one guard have the same view. *)
Lemma safe_globals_same_view iso S1 S2 :
  same_view (_create_safe_globals (Executor.__init__ iso S1))
            (_create_safe_globals (Executor.__init__ iso S2)).
Proof.
  unfold same_view, _create_safe_globals.
  rewrite !fmap_insert, !fmap_empty. reflexivity.
Qed.

(** The deny check does not look at the executor. *)
Lemma check_blocked_imports_any_self self self' code :
  _check_blocked_imports self code = _check_blocked_imports self' code.
Proof. reflexivity. Qed.

(** When the deny check trips, the two results are the same. *)
Lemma execute_blocked_same py_exec iso S1 S2 code timeout_ms w :
  _check_blocked_imports (Executor.__init__ iso S1) code <> [] ->
  execute py_exec (Executor.__init__ iso S1) code timeout_ms w =
  execute py_exec (Executor.__init__ iso S2) code timeout_ms w.
Proof.
  unfold execute.
  rewrite (check_blocked_imports_any_self (Executor.__init__ iso S2) (Executor.__init__ iso S1)).
  by destruct (_check_blocked_imports _ code).
Qed.

(** C5 (as the code has it).  [execute] never reads the authorized
    imports: for two executors over one guard that differ only in the
    additional authorized imports, the results are the same for every
    code text whose run does not look at the authorized imports of the
    receiver behind the injected callables. *)
Theorem execute_ignores_authorized_imports
    (py_exec : string -> gmap string PyVal -> World -> Run)
    (iso : ProjectIsolation) (S1 S2 : option (list string))
    (code : string) (timeout_ms : Z) (w : World) :
  receiver_blind py_exec code ->
  execute py_exec (Executor.__init__ iso S1) code timeout_ms w =
  execute py_exec (Executor.__init__ iso S2) code timeout_ms w.
Proof.
  intros Hblind. unfold execute.
  rewrite (check_blocked_imports_any_self (Executor.__init__ iso S2) (Executor.__init__ iso S1)).
  destruct (_check_blocked_imports _ code); [|done].
  assert (isolation (Executor.__init__ iso S1) = isolation (Executor.__init__ iso S2)) as <-
    by (by destruct S1 as [[|??]|], S2 as [[|??]|]).
  unfold sandbox_exec. cbn [fst snd].
  destruct (os_getcwd w); [|done]. cbn [run_code __name__].
  destruct (os_chdir _ w) as [w1|e]; [|done].
  by rewrite (Hblind _ _ _ (safe_globals_same_view iso S1 S2)).
Qed.

(* ===================================================================== *)
(** * The theorems at work                                                *)
(* ===================================================================== *)

Import Examples.

(** ** The guard on the example file system *)

Example validate_inside :
  validate_path g0 "src/../src/a.py" w0 = Returns a_py.
Proof. vm_compute. reflexivity. Qed.

(** A link that stays inside the project is followed. *)
Example validate_link_inside :
  validate_path g0 "docs/a.py" w0 = Returns a_py.
Proof. vm_compute. reflexivity. Qed.

(** A link that leaves the project is caught, though its name is inside. *)
Example validate_link_outside :
  validate_path g0 "out/passwd" w0
  = Raises {| exn_class := PermissionError;
              exn_msg := "Path traversal detected: out/passwd" |}.
Proof. vm_compute. reflexivity. Qed.

Example validate_dot_dot_outside :
  validate_path g0 "../../etc/passwd" w0
  = Raises {| exn_class := PermissionError;
              exn_msg := "Path traversal detected: ../../etc/passwd" |}.
Proof. vm_compute. reflexivity. Qed.

Example validate_absolute_outside :
  is_safe_path g0 "/etc/passwd" w0 = Returns false.
Proof. vm_compute. reflexivity. Qed.

(** A symlink loop makes [is_safe_path] raise as well. *)
Example is_safe_path_loop :
  is_safe_path g0 "loop/x" w0
  = Raises {| exn_class := RuntimeError; exn_msg := "Symlink loop from '/proj/loop/x'" |}.
Proof. vm_compute. reflexivity. Qed.

Example relative_path_of_root : get_relative_path g0 "/proj" w0 = Returns ".".
Proof. vm_compute. reflexivity. Qed.

(** ** The scanner *)

Example validate_clean :
  validate "x = 1 + 2" = {| valid := true; vulnerabilities := []; compliance_score := 100 |}.
Proof. vm_compute. reflexivity. Qed.

(** ** The executor *)

Example execute_import_subprocess :
  execute py_fragment exec0 "import subprocess" 60000 w0
  = (w0, Returns {| success := false; result := VNone; output := None;
                    error := Some "Blocked import detected: subprocess" |}).
Proof. vm_compute. reflexivity. Qed.

(** ** The theorems at the examples *)

(** [execute] on [import subprocess]. *)
Lemma execute_blocked_import_witness :
  mentions_blocked "import subprocess" "subprocess" /\
  exists msg,
    (forall py_exec,
       execute py_exec exec0 "import subprocess" 60000 w0 =
       (w0, Returns {| success := false; result := VNone; output := None;
                       error := Some msg |})) /\
    (forall Y, mentions_blocked "import subprocess" Y -> substring Y msg).
Proof.
  assert (mentions_blocked "import subprocess" "subprocess") as H.
  { split; [left|]. exists "import subprocess". split; [by left|].
    exists "", "". reflexivity. }
  split; [exact H|].
  exact (execute_blocked_import exec0 "import subprocess" 60000 w0 "subprocess" H).
Defined.



(** The null byte with the guard of [/proj]. *)
Lemma is_safe_path_null_byte_witness :
  is_safe_path g0 null_path w0 = Raises null_byte /\
  validate_path g0 null_path w0 = Raises null_byte /\
  is_PermissionError null_byte = false.
Proof. apply (is_safe_path_null_byte g0 w0). reflexivity. Defined.


(** The empty path with the guard of [/proj]. *)
Lemma validate_empty_path_witness : validate_path g0 "" w0 = Returns proj.
Proof.
  apply (validate_empty_path g0 w0).
  vm_compute. reflexivity.
Defined.

(** A callback that changes directory and then raises. *)
Lemma sandbox_exec_restores_cwd_witness :
  cwd (fst (fst (sandbox_exec g0 chdir_and_fail (w0, tt)))) = cwd (fst (w0, tt)).
Proof.
  apply (sandbox_exec_restores_cwd g0 chdir_and_fail (w0, tt)).
  - vm_compute. reflexivity.
  - intros w1 Hw1. vm_compute in Hw1. injection Hw1 as <-. vm_compute. reflexivity.
Defined.

(** C8, the claim as stated fails: a callback that removes the directory
    the process was in leaves the process in the project root, and the
    call raises the error of the restoring [chdir]. *)
Lemma sandbox_exec_cwd_not_restored :
  cwd (fst (fst (sandbox_exec g0 remove_tmp (w0, tt)))) <> cwd (fst (w0, tt)) /\
  cwd (fst (fst (sandbox_exec g0 remove_tmp (w0, tt)))) = ["proj"] /\
  snd (sandbox_exec g0 remove_tmp (w0, tt))
  = Raises {| exn_class := FileNotFoundError;
              exn_msg := "[Errno 2] No such file or directory: '/tmp'" |}.
Proof. vm_compute. repeat split. discriminate. Qed.

(** [result = 2 + 2] with and without an additional authorized import. *)
Lemma execute_ignores_authorized_imports_witness :
  execute py_fragment (Executor.__init__ g0 None) two_plus_two 60000 w0 =
  execute py_fragment (Executor.__init__ g0 (Some ["numpy"])) two_plus_two 60000 w0.
Proof.
  apply (execute_ignores_authorized_imports py_fragment g0 None (Some ["numpy"])
           two_plus_two 60000 w0).
  intros globals globals' st _. unfold run_code, py_fragment. cbn [__call__].
  destruct (decide (two_plus_two = two_plus_two)); [|done].
  cbn [ns stdout stderr raised world].
  unfold dict_get. rewrite !lookup_insert_eq. reflexivity.
Defined.

(** C5, the claim as stated fails: code that reaches the executor through
    a bound method reads its authorized imports, and the two results
    differ. *)
Lemma execute_sees_authorized_imports :
  execute py_fragment exec0 peek 60000 w0 <> execute py_fragment exec1 peek 60000 w0.
Proof.
  intros Heq.
  apply (f_equal (fun out : World * outcome ExecutionResult =>
                    match snd out with
                    | Returns r =>
                        match result r with
                        | VSet s => bool_decide ("numpy" ∈ s)
                        | _ => false
                        end
                    | Raises _ => false
                    end)) in Heq.
  vm_compute in Heq. discriminate Heq.
Qed.

(* ===================================================================== *)
(** * More about the scanner                                              *)
(* ===================================================================== *)

(** A loop that appends numbered records for what each element yields. *)
Lemma foldl_numbered {X : Type} (code : string)
    (f : scan_state -> X -> scan_state) (g : X -> list hit) :
  (forall vs n x,
     f (vs, n) x
     = (vs ++ imap (fun i h => record_of code (S (n + i)) h) (g x), n + length (g x))) ->
  forall xs vs n,
    foldl f (vs, n) xs
    = (vs ++ imap (fun i h => record_of code (S (n + i)) h) (flat_map g xs),
       n + length (flat_map g xs)).
Proof.
  intros Hf. induction xs as [|x xs IH]; intros vs n; cbn [foldl flat_map].
  - by rewrite app_nil_r, Nat.add_0_r.
  - rewrite Hf, IH, imap_app, length_app, <- app_assoc. f_equal; [|lia].
    f_equal. f_equal. apply imap_ext. intros i h _. f_equal. lia.
Qed.

Lemma on_match_numbered code category desc vs n start :
  on_match code category desc (vs, n) start
  = (vs ++ imap (fun i h => record_of code (S (n + i)) h) [(category, desc, start)],
     n + length [(category, desc, start)]).
Proof.
  unfold on_match. cbn [fst snd imap length record_of line_of].
  rewrite Nat.add_0_r, Nat.add_1_r. reflexivity.
Qed.

Lemma flat_map_singleton {A B} (f : A -> B) (l : list A) :
  flat_map (fun x => [f x]) l = f <$> l.
Proof. induction l as [|x l IH]; [done|]. cbn. by rewrite IH. Qed.

Lemma on_pattern_numbered code category vs n pd :
  on_pattern code category (vs, n) pd
  = (vs ++ imap (fun i h => record_of code (S (n + i)) h) (hits_of_pattern code category pd),
     n + length (hits_of_pattern code category pd)).
Proof.
  unfold on_pattern, hits_of_pattern.
  rewrite (foldl_numbered code _ (fun start => [(category, snd pd, start)])).
  - by rewrite flat_map_singleton.
  - intros. apply on_match_numbered.
Qed.

Lemma on_category_numbered code vs n cp :
  on_category code (vs, n) cp
  = (vs ++ imap (fun i h => record_of code (S (n + i)) h) (hits_of_category code cp),
     n + length (hits_of_category code cp)).
Proof.
  unfold on_category, hits_of_category.
  apply (foldl_numbered code _ (hits_of_pattern code (fst cp))).
  intros. apply on_pattern_numbered.
Qed.

(** The three nested loops of [validate] list the matches in table order
    and number them from one. *)
Lemma scan_hits code : scan code = imap (fun i h => record_of code (S i) h) (hits code).
Proof.
  unfold scan, hits.
  rewrite (foldl_numbered code _ (hits_of_category code)).
  - reflexivity.
  - intros. apply on_category_numbered.
Qed.

Lemma elem_of_flat_map {A B} (f : A -> list B) (l : list A) (y : B) :
  y ∈ flat_map f l <-> exists x, x ∈ l /\ y ∈ f x.
Proof.
  rewrite list_elem_of_In, in_flat_map. setoid_rewrite list_elem_of_In. reflexivity.
Qed.

Lemma elem_of_hits code h :
  h ∈ hits code <->
  exists cat pats p desc start,
    h = (cat, desc, start) /\ (cat, pats) ∈ patterns /\ (p, desc) ∈ pats /\
    start ∈ finditer p code.
Proof.
  unfold hits. rewrite elem_of_flat_map. split.
  - intros ([cat pats] & Hc & Hh). unfold hits_of_category in Hh. cbn [fst snd] in Hh.
    apply elem_of_flat_map in Hh as ([p desc] & Hp & Hh).
    unfold hits_of_pattern in Hh. cbn [fst snd] in Hh.
    apply list_elem_of_fmap in Hh as (start & -> & Hs).
    by exists cat, pats, p, desc, start.
  - intros (cat & pats & p & desc & start & -> & Hc & Hp & Hs).
    exists (cat, pats). split; [done|]. unfold hits_of_category. cbn [fst snd].
    apply elem_of_flat_map. exists (p, desc). split; [done|].
    unfold hits_of_pattern. cbn [fst snd]. apply list_elem_of_fmap. by exists start.
Qed.

Lemma elem_of_scan code v :
  v ∈ scan code <-> exists i h, hits code !! i = Some h /\ v = record_of code (S i) h.
Proof.
  rewrite scan_hits, elem_of_lookup_imap. split; intros (i & h & ? & ?); by exists i, h.
Qed.

Lemma category_in_tables cat pats :
  (cat, pats) ∈ patterns ->
  cat ∈ ["A03:2021-Injection-SQL"; "A03:2021-Injection-XSS"; "A03:2021-Injection-CMD";
         "A01:2021-Broken Access Control"; "A10:2021-SSRF"].
Proof.
  unfold patterns. intros H. repeat (apply elem_of_cons in H as [[= -> _]|H]; [set_solver|]).
  by apply elem_of_nil in H.
Qed.

Lemma table_category cat :
  cat ∈ ["A03:2021-Injection-SQL"; "A03:2021-Injection-XSS"; "A03:2021-Injection-CMD";
         "A01:2021-Broken Access Control"; "A10:2021-SSRF"] ->
  _get_severity cat = table_severity cat /\
  Some (_get_remediation cat) = remediations !! cat /\
  (_get_severity cat = critical \/ _get_severity cat = high).
Proof.
  intros H. repeat (apply elem_of_cons in H as [->|H]; [vm_compute; auto|]).
  by apply elem_of_nil in H.
Qed.

Lemma count_newlines_app l1 l2 :
  count_newlines (l1 ++ l2) = count_newlines l1 + count_newlines l2.
Proof. induction l1 as [|a l1 IH]; cbn; [done|]. rewrite IH. lia. Qed.

Lemma count_newlines_take n l : count_newlines (take n l) <= count_newlines l.
Proof. rewrite <- (take_drop n l) at 2. rewrite count_newlines_app. lia. Qed.

Lemma scan_severity code v :
  v ∈ scan code -> severity v = critical \/ severity v = high.
Proof.
  intros (i & [[cat desc] start] & Hi & ->)%elem_of_scan. cbn.
  apply list_elem_of_lookup_2, elem_of_hits in Hi
    as (? & pats & p & ? & ? & [= <- <- <-] & Hc & _).
  by apply category_in_tables, table_category in Hc as (_ & _ & ?).
Qed.

(** ** The report lists every match once *)

(** X1.  The report of [validate] is the list of all matches of the table
    patterns, in the order of the tables and from left to right in the
    text, one record for each match; the record of the i-th match (from
    zero) has the identifier made of the number i + 1 on four digits, its
    category, the severity and the remediation of the category, the
    description of the pattern as title and the line of the match. *)
Theorem validate_lists_every_match (code : string) :
  vulnerabilities (validate code)
  = imap (fun i h => record_of code (S i) h) (hits code).
Proof. apply scan_hits. Qed.

(** X2.  Every entry of the report stems from a match of a pattern of
    the tables: the pattern stands in the table of the entry's category
    under the entry's title, and the location of the entry is the line of
    the match, which is not below one and not above the number of lines of
    the text. *)
Theorem validate_entry_sound (code : string) (v : Vulnerability) :
  v ∈ vulnerabilities (validate code) ->
  exists pats p start,
    (category v, pats) ∈ patterns /\ (p, title v) ∈ pats /\
    start ∈ finditer p code /\
    description v = "Potential " +:+ title v +:+ " vulnerability detected" /\
    location v = Some ("Line " +:+ pretty (line_of code start)) /\
    1 <= line_of code start <= S (count_newlines (chars code)).
Proof.
  intros (i & [[cat desc] start] & Hi & ->)%elem_of_scan. cbn.
  apply list_elem_of_lookup_2, elem_of_hits in Hi
    as (? & pats & p & ? & ? & [= <- <- <-] & Hc & Hp & Hs).
  exists pats, p, start. repeat split; try done.
  - unfold line_of. lia.
  - unfold line_of. pose proof (count_newlines_take start (chars code)). lia.
Qed.

(** X3.  Every entry of a report has one of the five categories of the
    tables; its severity is critical for the three injection categories
    and high for the two others, never medium, low or info; its
    remediation is the text the table has for the category, never the
    default text. *)
Theorem validate_entry_severity (code : string) (v : Vulnerability) :
  v ∈ vulnerabilities (validate code) ->
  category v ∈ (fst <$> patterns) /\
  severity v = table_severity (category v) /\
  (severity v = critical \/ severity v = high) /\
  remediation v = remediations !! category v /\
  remediation v <> Some "Review and fix the identified vulnerability".
Proof.
  intros (i & [[cat desc] start] & Hi & ->)%elem_of_scan. cbn.
  apply list_elem_of_lookup_2, elem_of_hits in Hi
    as (? & pats & p & ? & ? & [= <- <- <-] & Hc & _).
  split; [by apply (category_in_tables _ pats)|].
  apply category_in_tables in Hc.
  repeat (apply elem_of_cons in Hc as [->|Hc];
          [vm_compute; repeat split; solve [auto | discriminate]|]).
  by apply elem_of_nil in Hc.
Qed.

Lemma count_severity_nonneg sev vs : (0 <= count_severity sev vs)%Z.
Proof.
  induction vs as [|v vs IH]; [done|].
  cbn [count_severity foldr]. fold (count_severity sev vs). case_decide; lia.
Qed.

Lemma scan_nil_hits code : scan code = [] <-> hits code = [].
Proof.
  rewrite scan_hits. split; intros H.
  - apply (f_equal length) in H. rewrite length_imap in H. by apply nil_length_inv.
  - by rewrite H.
Qed.

Lemma hits_nil code :
  hits code = [] <->
  forall cat pats p desc,
    (cat, pats) ∈ patterns -> (p, desc) ∈ pats -> finditer p code = [].
Proof.
  split.
  - intros H cat pats p desc Hc Hp.
    destruct (finditer p code) as [|start l] eqn:E; [done|].
    assert ((cat, desc, start) ∈ hits code) as Hh.
    { apply elem_of_hits. exists cat, pats, p, desc, start.
      rewrite E. repeat split; try done. apply list_elem_of_here. }
    rewrite H in Hh. by apply elem_of_nil in Hh.
  - intros H. destruct (hits code) as [|h l] eqn:E; [done|].
    assert (h ∈ hits code) as Hh by (rewrite E; apply list_elem_of_here).
    apply elem_of_hits in Hh as (cat & pats & p & desc & start & _ & Hc & Hp & Hs).
    rewrite (H _ _ _ _ Hc Hp) in Hs. by apply elem_of_nil in Hs.
Qed.

Lemma valid_scan_nil code : valid (validate code) = true <-> scan code = [].
Proof.
  unfold validate. cbn [valid]. rewrite bool_decide_eq_true. split.
  - intros H. apply nil_length_inv in H.
    destruct (scan code) as [|v l] eqn:E; [done|].
    assert (v ∈ scan code) as Hv by (rewrite E; apply list_elem_of_here).
    apply scan_severity in Hv. rewrite filter_cons_True in H; done.
  - by intros ->.
Qed.

(** ** A text is valid exactly when no pattern matches *)

(** X4.  A text is reported valid exactly when the report is empty, and
    the report is empty exactly when no pattern of the tables matches
    anywhere in the text.  A valid text has the score 100; a text that is
    not valid has a score between 0 and 85: one match of any pattern
    makes the text fail. *)
Theorem validate_valid_iff_no_match (code : string) :
  let r := validate code in
  (valid r = true <-> vulnerabilities r = []) /\
  (vulnerabilities r = [] <->
     forall cat pats p desc,
       (cat, pats) ∈ patterns -> (p, desc) ∈ pats -> finditer p code = []) /\
  (valid r = true -> compliance_score r = 100%Z) /\
  (valid r = false -> (0 <= compliance_score r <= 85)%Z).
Proof.
  cbv zeta. split; [apply valid_scan_nil|].
  split; [cbn [validate vulnerabilities]; by rewrite scan_nil_hits, hits_nil|].
  split.
  - intros H%valid_scan_nil. unfold validate. cbn [compliance_score]. by rewrite H.
  - intros H. assert (scan code <> []) as Hne.
    { intros E%valid_scan_nil. congruence. }
    unfold validate. cbn [compliance_score].
    destruct (scan code) as [|v l] eqn:E; [done|].
    assert (v ∈ scan code) as Hv by (rewrite E; apply list_elem_of_here).
    apply scan_severity in Hv.
    pose proof (count_severity_nonneg critical l).
    pose proof (count_severity_nonneg high l).
    pose proof (count_severity_nonneg medium l).
    cbn [count_severity foldr]. fold (count_severity critical l).
    fold (count_severity high l). fold (count_severity medium l).
    destruct Hv as [Hv|Hv]; rewrite Hv; repeat case_decide; try done; lia.
Qed.

Lemma chars_app a b : chars (a +:+ b) = chars a ++ chars b.
Proof.
  induction a as [|x a IH]; [by rewrite app_empty_l|].
  rewrite app_cons. unfold chars in *. cbn [list_ascii_of_string app]. by rewrite IH.
Qed.

Lemma spelled_chr_eq ic s t :
  spelled ic s t -> Forall2 (fun c a => chr_eq ic c a = true) (chars s) (chars t).
Proof.
  unfold spelled, chr_eq. destruct ic.
  - generalize (chars s) (chars t). intros cs ts. revert cs.
    induction ts as [|a ts IH]; intros [|c cs] [=]; constructor; auto.
    by apply bool_decide_eq_true.
  - intros ->. induction (chars s); constructor; auto. by apply bool_decide_eq_true.
Qed.

(** A literal runs over a text that spells it. *)
Lemma rmatch_lit ic cs ts y :
  Forall2 (fun c a => chr_eq ic c a = true) cs ts ->
  forall prev, exists p', forall k,
    rmatch ic (seq (Chr <$> cs)) prev (ts ++ y) k = k p' y.
Proof.
  induction 1 as [|c a cs ts Hc _ IH]; intros prev.
  - by exists prev.
  - destruct (IH (Some a)) as [p' Hp']. exists p'. intros k.
    cbn [fmap list_fmap seq foldr rmatch eat app]. rewrite Hc. apply Hp'.
Qed.

(** Where a pattern matches somewhere, [finditer] finds a match. *)
Lemma finditer_from_nonempty p x s :
  (forall prev, match_at p prev s <> None) ->
  forall fuel prev pos,
    length x < fuel -> finditer_from fuel p prev (x ++ s) pos <> [].
Proof.
  intros Hs. induction x as [|a x IH]; intros [|fuel] prev pos Hf;
    cbn [length] in Hf; try lia; cbn [finditer_from app].
  - destruct (match_at p prev s) as [[p' s']|] eqn:E; [|by apply Hs in E].
    by destruct (length s - length s').
  - destruct (match_at p prev (a :: x ++ s)) as [[p' s']|].
    + by destruct (length (a :: x ++ s) - length s').
    + apply IH. lia.
Qed.

Lemma finditer_lit p s t code :
  body p = lit s -> spelled (icase p) s t -> substring t code ->
  finditer p code <> [].
Proof.
  intros Hb Hsp (pre & post & ->). unfold finditer.
  rewrite !chars_app. apply finditer_from_nonempty; [|rewrite !length_app; lia].
  intros prev. unfold match_at. rewrite Hb. unfold lit.
  destruct (rmatch_lit (icase p) (chars s) (chars t) (chars post)
              (spelled_chr_eq _ _ _ Hsp) prev) as [p' ->].
  done.
Qed.

(** ** The patterns that are plain text *)

(** X5.  A pattern of the tables that is a plain text is found wherever
    the text stands: when the source text holds it (in any case of its
    letters when the pattern ignores case), the report is not valid and
    has an entry with the category and the title of the pattern. *)
Theorem validate_flags_literal (cat : string) (pats : list (pattern * string))
    (p : pattern) (desc s t code : string) :
  (cat, pats) ∈ patterns -> (p, desc) ∈ pats ->
  body p = lit s -> spelled (icase p) s t -> substring t code ->
  valid (validate code) = false /\
  exists v, v ∈ vulnerabilities (validate code) /\ category v = cat /\ title v = desc.
Proof.
  intros Hc Hp Hb Hsp Hsub.
  pose proof (finditer_lit p s t code Hb Hsp Hsub) as Hne.
  destruct (finditer p code) as [|start l] eqn:E; [done|].
  assert ((cat, desc, start) ∈ hits code) as Hh.
  { apply elem_of_hits. exists cat, pats, p, desc, start.
    rewrite E. repeat split; try done. apply list_elem_of_here. }
  apply list_elem_of_lookup in Hh as [i Hi].
  assert (record_of code (S i) (cat, desc, start) ∈ scan code) as Hv.
  { apply elem_of_scan. by exists i, (cat, desc, start). }
  split.
  - apply not_true_is_false. intros Hval%valid_scan_nil.
    rewrite Hval in Hv. by apply elem_of_nil in Hv.
  - by exists (record_of code (S i) (cat, desc, start)).
Qed.

(* ===================================================================== *)
(** * More about the project boundary                                     *)
(* ===================================================================== *)

Lemma clean_no_slash l : Forall clean l -> Forall (fun name => "/"%char ∉ chars name) l.
Proof. intros H. eapply Forall_impl; [exact H|]. by intros name (_ & _ & _ & _ & ?). Qed.





(** ** Validating twice *)


(** ** Ordinary names under the root *)

(** X7.  For a guard with an absolute root, a relative path written with
    ordinary names (none empty, a dot or two dots, none with a slash or a
    null byte) is accepted when no symbolic link lies on the way from the
    root of the file system to it, and validates to the root followed by
    these names; the names need not exist. *)
Theorem validate_path_plain_names (g : ProjectIsolation) (names : list string)
    (w : World) :
  absolute (project_root g) = true ->
  canon (links w) (parts (project_root g) ++ names) ->
  validate_path g (join "/" names) w
  = Returns {| absolute := true; parts := parts (project_root g) ++ names |}.
Proof.
  intros Habs Hcan.
  assert (Forall clean names) as Hclean.
  { destruct Hcan as [Hc _]. by apply Forall_app in Hc as [_ ?]. }
  assert (Path_of (join "/" names) = {| absolute := false; parts := names |}) as HP.
  { destruct names as [|x l]; [done|].
    by rewrite <- (Path_of_Path_str_relative (x :: l)). }
  unfold validate_path, is_absolute. rewrite HP. cbn [absolute].
  unfold joinpath. cbn [absolute parts]. rewrite Habs, resolve_id by done.
  assert (is_relative_to {| absolute := true;
                            parts := parts (project_root g) ++ names |}
                         (project_root g) = true) as ->; [|done].
  apply is_relative_to_inside. split; [done|]. by exists names.
Qed.

Lemma join_clean_not_dot l : Forall clean l -> l <> [] -> join "/" l <> ".".
Proof.
  intros Hc Hne. destruct l as [|x l]; [done|].
  inversion Hc as [|? ? (Hx & Hdot & _) _]; subst.
  destruct l as [|y l]; cbn [join]; [done|].
  destruct x as [|a x]; [done|]. rewrite app_cons.
  destruct x as [|b x]; [|by rewrite app_cons].
  rewrite app_empty_l, app_cons. intros [= -> ?].
Qed.

(** ** The relative path *)

(** X8.  What [get_relative_path] returns is the text of the names that
    follow the root in the validated path, all of them clean: it does not
    start with a slash, none of its components is two dots, and it is a
    single dot exactly when the path validates to the root itself. *)
Theorem get_relative_path_shape (g : ProjectIsolation) (path : string)
    (w : World) (rel : string) :
  get_relative_path g path w = Returns rel ->
  exists below,
    (validate_path g path w
     = Returns {| absolute := true; parts := parts (project_root g) ++ below |}) /\
    Forall clean below /\
    rel = Path_str {| absolute := false; parts := below |} /\
    startswith "/" rel = false /\
    (".." ∉ split "/" rel) /\
    (rel = "." <-> below = []).
Proof.
  unfold get_relative_path.
  destruct (validate_path g path w) as [t|] eqn:Hval; [|done].
  pose proof (validate_path_canon _ _ _ _ Hval) as [Habs Hcan].
  destruct (relative_to t (project_root g)) as [r|] eqn:Hrt; [|done].
  intros [= <-].
  pose proof (joinpath_relative_to _ _ _ Hrt Habs) as [_ Hparts].
  unfold relative_to in Hrt. destruct (is_relative_to t (project_root g)); [|done].
  injection Hrt as <-. cbn [parts] in Hparts.
  remember (drop (length (parts (project_root g))) (parts t)) as below eqn:Hb.
  clear Hb.
  assert (Forall clean below) as Hclean.
  { destruct Hcan as [Hc _]. rewrite Hparts in Hc. by apply Forall_app in Hc as [_ ?]. }
  exists below. split; [|split; [done|split; [done|]]].
  { destruct t as [a q]. cbn in *. by subst. }
  clear Hparts Hcan Hval.
  pose proof (Path_of_Path_str_relative below Hclean) as HP.
  split; [by apply (f_equal absolute) in HP|].
  unfold Path_str. cbn [absolute parts]. destruct below as [|x l] eqn:E.
  - split; [|done]. cbn. set_solver.
  - rewrite <- E in *. split.
    + rewrite split_join by (subst; first [done | by apply clean_no_slash]).
      intros Hin. eapply Forall_forall in Hclean; [|exact Hin].
      by destruct Hclean as (_ & _ & ? & _).
    + split; [|by subst]. intros Hdot. by apply join_clean_not_dot in Hdot; subst.
Qed.


(** ** What a guard is built on *)


(* ===================================================================== *)
(** * More about the executor                                             *)
(* ===================================================================== *)

(** ** The deny check *)

(** X10.  [_check_blocked_imports] returns the modules of the deny list
    for which the text holds one of the four import idioms, each once and
    in the order of the deny list, whatever the executor. *)
Theorem check_blocked_imports_shape (self : SecurePythonExecutor) (code : string) :
  NoDup (_check_blocked_imports self code) /\
  _check_blocked_imports self code `sublist_of` BLOCKED_IMPORTS /\
  (forall X, X ∈ _check_blocked_imports self code <-> mentions_blocked code X) /\
  (_check_blocked_imports self code = [] <-> forall X, ~ mentions_blocked code X).
Proof.
  split_and!.
  - rewrite check_blocked_imports_filter. apply NoDup_filter.
    apply (bool_decide_unpack _). by vm_compute.
  - rewrite check_blocked_imports_filter. apply sublist_filter.
  - apply check_blocked_imports_spec.
  - split.
    + intros H X HX. apply (check_blocked_imports_spec self) in HX. rewrite H in HX.
      by apply elem_of_nil in HX.
    + intros H. destruct (_check_blocked_imports self code) as [|X l] eqn:E; [done|].
      destruct (H X). apply (check_blocked_imports_spec self). rewrite E.
      apply list_elem_of_here.
Qed.

(** ** Runs that raise *)

Lemma os_chdir_Raises p w e : os_chdir p w = Raises e -> is_Exception e = true.
Proof.
  unfold os_chdir. destruct (realpath w p) as [q seen|u| |].
  - destruct (decide (q ∈ dirs w)); [done|]. by intros [= <-].
  - by intros [= <-].
  - by intros [= <-].
  - by intros [= <-].
Qed.




Lemma enterable_getcwd w :
  enterable w (cwd w) -> os_getcwd w = Returns {| absolute := true; parts := cwd w |}.
Proof.
  intros H%enterable_is_dir. unfold os_getcwd. by rewrite decide_True.
Qed.

(** ** The working directory around a run *)

(** X13.  [execute] leaves the working directory as it found it, whether
    the text is blocked, the root cannot be entered, the code returns or
    the code raises, provided the directory at entry can be entered under
    its name before the call and still after the run of the code. *)
Theorem execute_restores_cwd
    (py_exec : string -> gmap string PyVal -> World -> Run)
    (self : SecurePythonExecutor) (code : string) (timeout_ms : Z) (w : World) :
  enterable w (cwd w) ->
  (forall w1, os_chdir (project_root (isolation self)) w = Returns w1 ->
              enterable (world (py_exec code (_create_safe_globals self) w1)) (cwd w)) ->
  cwd (fst (execute py_exec self code timeout_ms w)) = cwd w.
Proof.
  intros Hent Hafter.
  destruct (_check_blocked_imports self code) eqn:Hblocked.
  2: { unfold execute. by rewrite Hblocked. }
  rewrite (execute_unfold _ _ _ _ _ _ Hblocked (enterable_getcwd _ Hent)).
  destruct (os_chdir (project_root (isolation self)) w) as [w1|e1] eqn:Hpin.
  - specialize (Hafter w1 eq_refl). unfold enterable in Hafter.
    cbn [run_code __call__ fst snd].
    destruct (raised (py_exec code (_create_safe_globals self) w1)) as [e|];
      cbn [fst snd]; rewrite Hafter; [by destruct (is_Exception e)|done].
  - unfold enterable in Hent. cbn [fst snd]. rewrite Hent.
    by destruct (is_Exception e1).
Qed.

(** X14.  When the text passes the deny check and the root of the guard
    cannot be entered, [execute] does not run the code: whatever the
    interpreter, the result is a failure whose error is the text of the
    error of [os.chdir], without output, and the process is as before. *)
Theorem execute_root_not_entered
    (py_exec : string -> gmap string PyVal -> World -> Run)
    (self : SecurePythonExecutor) (code : string) (timeout_ms : Z)
    (w : World) (e : PyExn) :
  _check_blocked_imports self code = [] ->
  enterable w (cwd w) ->
  os_chdir (project_root (isolation self)) w = Raises e ->
  execute py_exec self code timeout_ms w =
  (w, Returns {| success := false; result := VNone; output := None;
                 error := Some (exn_msg e) |}).
Proof.
  intros Hblocked Hent Hpin.
  rewrite (execute_unfold _ _ _ _ _ _ Hblocked (enterable_getcwd _ Hent)), Hpin.
  unfold enterable in Hent. cbn [fst snd]. rewrite Hent.
  rewrite (os_chdir_Raises _ _ _ Hpin). by rewrite set_cwd_cwd.
Qed.

(* ===================================================================== *)
(** * The path endpoint                                                   *)
(* ===================================================================== *)






(* ===================================================================== *)
(** * The file functions of the executor                                  *)
(* ===================================================================== *)





Lemma walk_dirs_grow w w' path rest :
  dirs w ⊆ dirs w' -> walk_dirs w path rest = None -> walk_dirs w' path rest = None.
Proof.
  intros Hsub. revert path. induction rest as [|x rest IH]; intros path; [done|].
  cbn [walk_dirs]. destruct (decide (path ++ [x] ∈ dirs w)) as [Hin|].
  - rewrite decide_True by set_solver. apply IH.
  - by destruct (decide _).
Qed.


Lemma parent_prefix q : parent q `prefix_of` q.
Proof. apply removelast_prefix. Qed.

(** [resolve] looks at the links and the working directory only. *)
Lemma resolve_grow w w' p t :
  links w' = links w -> cwd w' = cwd w -> dirs w ⊆ dirs w' ->
  resolve w p = Returns t -> resolve w' p = Returns t.
Proof.
  intros Hl Hc Hd. rewrite !resolve_Returns. intros (seen & Hreal & Habs & Hcwd).
  exists seen. split_and!; [|done|].
  - unfold realpath in *. by rewrite Hl, Hc.
  - destruct Hcwd as [?|Hin]; [by left|right]. rewrite Hc. set_solver.
Qed.

Lemma validate_path_grow g path w w' t :
  links w' = links w -> cwd w' = cwd w -> dirs w ⊆ dirs w' ->
  validate_path g path w = Returns t -> validate_path g path w' = Returns t.
Proof.
  intros Hl Hc Hd. unfold validate_path.
  destruct (is_absolute (Path_of path)).
  - destruct (resolve w (Path_of path)) as [c|] eqn:Hres; [|done].
    by rewrite (resolve_grow _ _ _ _ Hl Hc Hd Hres).
  - destruct (resolve w (joinpath _ _)) as [c|] eqn:Hres; [|done].
    by rewrite (resolve_grow _ _ _ _ Hl Hc Hd Hres).
Qed.


(** ** Reading *)


Lemma made_refl q d : made q d d.
Proof. unfold made. split_and!; auto. Qed.

Lemma made_trans q d d1 d2 :
  made (parent q) d d1 -> made q d1 d2 -> made q d d2.
Proof.
  intros (Hl1 & Hc1 & Hf1 & Hd1 & Hs1 & Hn1) (Hl2 & Hc2 & Hf2 & Hd2 & Hs2 & Hn2).
  unfold made. split_and!; try congruence; [set_solver|].
  intros p [Hp|Hp]%Hn2; [|by right].
  apply Hn1 in Hp as [Hp|[Hne Hp]]; [by left|right]. split; [done|].
  etrans; [exact Hp|apply parent_prefix].
Qed.

Lemma os_mkdir_Returns q d d1 :
  os_mkdir q d = Returns d1 ->
  d1 = add_dir q d /\ q <> [] /\ walk_dirs (fs d) [] (parent q) = None /\
  (q ∉ dirs (fs d)) /\ (q ∉ files (fs d)) /\ links (fs d) !! q = None.
Proof.
  unfold os_mkdir. destruct q as [|x q]; [done|].
  destruct (walk_dirs (fs d) [] (parent (x :: q))); [done|].
  destruct (decide _) as [|Hfree]; [done|]. intros [= <-]. split_and!; try done.
  - naive_solver.
  - naive_solver.
  - destruct (links (fs d) !! (x :: q)) eqn:E; [|done]. destruct Hfree. eauto.
Qed.

Lemma os_mkdir_made q d d1 : os_mkdir q d = Returns d1 -> made q d d1.
Proof.
  intros (-> & Hne & _)%os_mkdir_Returns. unfold made, add_dir. cbn.
  split_and!; try done; [set_solver|].
  intros p [->%elem_of_singleton|Hp]%elem_of_union; [by right|by left].
Qed.

Lemma mkdir_made fuel parents exist_ok q d d1 r :
  mkdir fuel parents exist_ok q d = (d1, r) -> made q d d1.
Proof.
  revert parents exist_ok q d d1 r.
  induction fuel as [|fuel IH]; intros parents exist_ok q d d1 r; cbn [mkdir];
    destruct (os_mkdir q d) as [d'|e] eqn:Hos.
  - intros [= <- _]. by apply os_mkdir_made.
  - repeat case_match; intros [= <- _]; apply made_refl.
  - intros [= <- _]. by apply os_mkdir_made.
  - destruct (is_FileNotFoundError e).
    + destruct (negb parents || bool_decide (parent q = q));
        [intros [= <- _]; apply made_refl|].
      destruct (mkdir fuel true true (parent q) d) as [d2 [[]|e2]] eqn:Hup.
      * intros Hdown. eapply made_trans; eauto.
      * intros [= <- _]. eapply made_trans; [by eapply IH|apply made_refl].
    + case_match; intros [= <- _]; apply made_refl.
Qed.


Lemma text_chars s : text (chars s) = s.
Proof. apply string_of_list_ascii_of_string. Qed.

Lemma chars_text l : chars (text l) = l.
Proof. apply list_ascii_of_string_of_list_ascii. Qed.

Lemma universal_newlines_id l : "013"%char ∉ l -> universal_newlines l = l.
Proof.
  induction l as [|a l IH]; [done|]. intros Hcr. cbn [universal_newlines].
  rewrite decide_False by set_solver. f_equal. apply IH. set_solver.
Qed.

(** What a successful write is made of. *)
Lemma secure_write_file_Returns self path content d d' :
  _secure_write_file self path content d = (d', Returns tt) ->
  exists t d1,
    validate_path (isolation self) path (fs d) = Returns t /\
    mkdir (S (length (parent (parts t)))) true true (parent (parts t)) d
      = (d1, Returns tt) /\
    walk_dirs (fs d1) [] (parent (parts t)) = None /\
    (parts t ∉ dirs (fs d1)) /\
    d' = put_file (parts t) content d1.
Proof.
  unfold _secure_write_file.
  destruct (validate_path (isolation self) path (fs d)) as [t|] eqn:Hval; [|done].
  destruct (mkdir _ true true (parent (parts t)) d) as [d1 [[]|e]] eqn:Hmk; [|done].
  unfold write_text.
  destruct (walk_dirs (fs d1) [] (parent (parts t))) eqn:Hwalk; [done|].
  destruct (decide (parts t ∈ dirs (fs d1))); [done|].
  intros [= <-]. by exists t, d1.
Qed.

(** ** Writing, then reading *)

(** X18.  After [_secure_write_file] has returned, [_secure_read_file]
    on the same path returns the text written, with every carriage return
    (and the line feed after it, if any) turned into one line feed; a text
    without carriage returns is read back as it was written. *)
Theorem secure_write_then_read (self : SecurePythonExecutor) (path content : string)
    (d d' : Disk) :
  _secure_write_file self path content d = (d', Returns tt) ->
  _secure_read_file self path d'
    = Returns (text (universal_newlines (chars content))) /\
  ("013"%char ∉ chars content -> _secure_read_file self path d' = Returns content).
Proof.
  intros (t & d1 & Hval & Hmk & Hwalk & Hnd & ->)%secure_write_file_Returns.
  apply mkdir_made in Hmk as (Hl & Hc & _ & _ & Hsub & _).
  assert (_secure_read_file self path (put_file (parts t) content d1)
          = Returns (text (universal_newlines (chars content)))) as Hread.
  { unfold _secure_read_file.
    rewrite (validate_path_grow _ _ (fs d) _ t) by (cbn; done).
    unfold read_text. cbn [fs put_file dirs files data].
    assert (walk_dirs
              {| cwd := cwd (fs d1); links := links (fs d1); dirs := dirs (fs d1);
                 files := {[parts t]} ∪ files (fs d1) |} [] (parent (parts t)) = None)
      as ->.
    { eapply walk_dirs_grow; [|exact Hwalk]. done. }
    rewrite decide_False by done. rewrite decide_True by set_solver.
    by rewrite lookup_insert_eq. }
  split; [done|]. intros Hcr.
  by rewrite Hread, universal_newlines_id, text_chars.
Qed.






(** ** When a write goes through *)






(** ** What a write can touch *)








(** ** The tree is kept, and a failed write writes nothing *)



(** ** Writing one file, reading another *)


(* ===================================================================== *)
(** * The guard looks at the links only                                   *)
(* ===================================================================== *)



(* ===================================================================== *)
(** * The callback runs in the root                                       *)
(* ===================================================================== *)

(** X24.  For a guard built by the constructor on a directory, and a
    callable with a name, [sandbox_exec] calls the callable exactly once,
    in the process state at entry but with the canonical root as working
    directory, then goes back to the directory it started from; what it
    returns or raises is what the callable did, unless going back
    fails. *)
Theorem sandbox_exec_runs_in_root {H A : Type} (root_text : string) (audit : bool)
    (g : ProjectIsolation) (func : Callable H A) (w : World) (h : H) :
  Isolation.__init__ root_text audit w = Returns g ->
  absolute (Path_of root_text) = true \/ canon (links w) (cwd w) ->
  parts (project_root g) ∈ dirs w ->
  cwd w ∈ dirs w ->
  is_Some (__name__ func) ->
  sandbox_exec g func (w, h) =
  let '(st1, r) := __call__ func (set_cwd (parts (project_root g)) w, h) in
  match os_chdir {| absolute := true; parts := cwd w |} (fst st1) with
  | Raises e => (st1, Raises e)
  | Returns w2 => ((w2, snd st1), r)
  end.
Proof.
  intros Hinit Hstart Hroot Hcwd [name Hname].
  pose proof (init_canonical_root _ _ _ _ Hinit Hstart) as Hcan.
  unfold canonical_root in Hcan.
  apply resolve_Returns in Hcan as (seen & Hreal & _).
  unfold sandbox_exec, os_getcwd. cbn [fst snd]. rewrite decide_True by done.
  rewrite Hname.
  assert (os_chdir (project_root g) w = Returns (set_cwd (parts (project_root g)) w))
    as ->.
  { unfold os_chdir. rewrite Hreal. by rewrite decide_True. }
  by destruct (enable_audit g).
Qed.

(* ===================================================================== *)
(** * Checks that compute                                                 *)
(* ===================================================================== *)


Lemma clean_check_sound name : clean_check name = true -> clean name.
Proof.
  unfold clean_check, clean, no_slash.
  rewrite !andb_true_iff, !negb_true_iff, !bool_decide_eq_false.
  intros ((((? & ?) & ?) & ?) & ?). by split_and!.
Qed.

Lemma canon_check_sound lk p : canon_check lk p = true -> canon lk p.
Proof.
  unfold canon_check. rewrite andb_true_iff, !forallb_forall.
  intros [Hclean Hlinks]. split.
  - apply Forall_forall. intros name Hin. apply clean_check_sound, Hclean.
    by apply list_elem_of_In.
  - intros q Hne [r ->]. destruct q as [|x q]; [done|].
    specialize (Hlinks (length q)). rewrite bool_decide_eq_true in Hlinks.
    rewrite <- Hlinks.
    + f_equal. change (S (length q)) with (length (x :: q)). by rewrite take_app_length.
    + apply in_seq. rewrite length_app. cbn. lia.
Qed.

(* ===================================================================== *)
(** * The further theorems at the examples                                *)
(* ===================================================================== *)

Import MoreExamples.

(** The entry for the SQL example comes from a match. *)
Lemma validate_entry_sound_witness :
  exists pats p start,
    (category sql_finding, pats) ∈ patterns /\ (p, title sql_finding) ∈ pats /\
    start ∈ finditer p sql_example /\
    description sql_finding
    = "Potential " +:+ title sql_finding +:+ " vulnerability detected" /\
    location sql_finding = Some ("Line " +:+ pretty (line_of sql_example start)) /\
    1 <= line_of sql_example start <= S (count_newlines (chars sql_example)).
Proof.
  apply (validate_entry_sound sql_example sql_finding).
  replace (vulnerabilities (validate sql_example)) with [sql_finding]
    by (vm_compute; reflexivity).
  apply list_elem_of_here.
Defined.

(** The entry for the SQL example is critical. *)
Lemma validate_entry_severity_witness :
  category sql_finding ∈ (fst <$> patterns) /\
  severity sql_finding = table_severity (category sql_finding) /\
  (severity sql_finding = critical \/ severity sql_finding = high) /\
  remediation sql_finding = remediations !! category sql_finding /\
  remediation sql_finding <> Some "Review and fix the identified vulnerability".
Proof.
  apply (validate_entry_severity sql_example sql_finding).
  replace (vulnerabilities (validate sql_example)) with [sql_finding]
    by (vm_compute; reflexivity).
  apply list_elem_of_here.
Defined.

(** A parent directory in a call of [open]. *)
Lemma validate_flags_literal_witness :
  valid (validate "open('../x')") = false /\
  exists v, v ∈ vulnerabilities (validate "open('../x')") /\
            category v = "A01:2021-Broken Access Control" /\
            title v = "Parent directory traversal".
Proof.
  apply (validate_flags_literal "A01:2021-Broken Access Control" PATH_PATTERNS
           (C (lit "../")) "Parent directory traversal" "../" "../" "open('../x')").
  - unfold patterns. do 3 apply list_elem_of_further. apply list_elem_of_here.
  - apply list_elem_of_here.
  - reflexivity.
  - reflexivity.
  - exists "open('", "x')". reflexivity.
Defined.


(** A file that does not exist yet, in a directory that does not either. *)
Lemma validate_path_plain_names_witness :
  validate_path g0 (join "/" ["new"; "b.txt"]) w0
  = Returns {| absolute := true; parts := parts (project_root g0) ++ ["new"; "b.txt"] |}.
Proof.
  apply (validate_path_plain_names g0 ["new"; "b.txt"] w0).
  - reflexivity.
  - apply canon_check_sound. vm_compute. reflexivity.
Defined.

(** The relative path of [a.py], asked for through the link [docs]. *)
Lemma get_relative_path_shape_witness :
  exists below,
    (validate_path g0 "docs/../src/./a.py" w0
     = Returns {| absolute := true; parts := parts (project_root g0) ++ below |}) /\
    Forall clean below /\
    "src/a.py" = Path_str {| absolute := false; parts := below |} /\
    startswith "/" "src/a.py" = false /\
    (".." ∉ split "/" "src/a.py") /\
    ("src/a.py" = "." <-> below = []).
Proof.
  apply (get_relative_path_shape g0 "docs/../src/./a.py" w0 "src/a.py").
  vm_compute. reflexivity.
Defined.




(** The working directory after [result = 2 + 2]. *)
Lemma execute_restores_cwd_witness :
  cwd (fst (execute py_fragment exec0 two_plus_two 60000 w0)) = cwd w0.
Proof.
  apply (execute_restores_cwd py_fragment exec0 two_plus_two 60000 w0).
  - vm_compute. reflexivity.
  - intros w1 Hw1. vm_compute in Hw1. injection Hw1 as <-. vm_compute. reflexivity.
Defined.

(** A root that has been removed. *)
Lemma execute_root_not_entered_witness :
  execute py_fragment (Executor.__init__ g_gone None) two_plus_two 60000 w0 =
  (w0, Returns {| success := false; result := VNone; output := None;
                  error := Some "[Errno 2] No such file or directory: '/gone'" |}).
Proof.
  apply (execute_root_not_entered py_fragment (Executor.__init__ g_gone None)
           two_plus_two 60000 w0
           {| exn_class := FileNotFoundError;
              exn_msg := "[Errno 2] No such file or directory: '/gone'" |});
    vm_compute; reflexivity.
Defined.



(** Writing [new/b.txt], then reading it. *)
Lemma secure_write_then_read_witness :
  _secure_read_file exec0 "new/b.txt"
    (fst (_secure_write_file exec0 "new/b.txt" "hello" disk0))
    = Returns (text (universal_newlines (chars "hello"))) /\
  ("013"%char ∉ chars "hello" ->
   _secure_read_file exec0 "new/b.txt"
     (fst (_secure_write_file exec0 "new/b.txt" "hello" disk0))
   = Returns "hello").
Proof.
  apply (secure_write_then_read exec0 "new/b.txt" "hello" disk0).
  vm_compute. reflexivity.
Defined.






(** The callback that changes directory and raises, under the guard of
    [/proj]. *)
Lemma sandbox_exec_runs_in_root_witness :
  sandbox_exec g0 chdir_and_fail (w0, tt) =
  let '(st1, r) := __call__ chdir_and_fail (set_cwd (parts (project_root g0)) w0, tt) in
  match os_chdir {| absolute := true; parts := cwd w0 |} (fst st1) with
  | Raises e => (st1, Raises e)
  | Returns w2 => ((w2, snd st1), r)
  end.
Proof.
  apply (sandbox_exec_runs_in_root "/proj" true g0 chdir_and_fail w0 tt).
  - vm_compute. reflexivity.
  - left. reflexivity.
  - apply (bool_decide_unpack _). vm_compute. reflexivity.
  - apply (bool_decide_unpack _). vm_compute. reflexivity.
  - by eexists.
Defined.
